(** * Brewnanza embedder: lexical, semantic and hybrid note search

    A shallow embedding of [packages/embedder/compare.py] (the three matchers
    [fuzzy_search], [vector_search], [hybrid_search]) and of
    [packages/embedder/vocabulary.py] ([get_llm_mappings]), with the
    properties of the ranking algorithm proved over it.

    Conventions of the embedding.
    - Python [float] scores are idealised as exact rationals ([Q]); equality
      of scores is [Qeq] ([==]).  Rounding, NaN and infinities are outside the
      model.
    - Python [str] is [string]; [lower], [split], [strip] act on the ASCII
      range.
    - A Python [dict] is an association list in insertion order with unique
      keys; [dict_set] on a present key keeps the key's position.
    - Exceptions are values of [exn]; fallible code returns [result].
    - The collaborators that live outside the repository are parameters:
      the rapidfuzz scorer ([scorer]), the sentence-transformer model
      ([model]), the JSON decoder ([json_loads]) and the Anthropic client
      ([client]).  Concrete stand-ins ([indel_ratio], [example_model],
      [json_loads_lite], [example_client]) are used to run examples only. *)

From Stdlib Require Import List Bool Arith ZArith QArith Qabs Lia Lqa.
From Stdlib Require Import Ascii String.
From Stdlib Require Import Permutation Sorted OrderedTypeEx.
Import ListNotations.

Open Scope string_scope.
Open Scope Q_scope.

(* ================================================================== *)
(** * Part I. Definitions *)
(* ================================================================== *)

(** ** Exceptions and the error monad *)

Inductive exn : Type :=
| ZeroDivisionError
| ValueError
| IndexError
| JSONDecodeError
| RecursionError
| APIError.

Inductive result (A : Type) : Type :=
| Ok (a : A)
| Raise (e : exn).
Arguments Ok {A} a.
Arguments Raise {A} e.

Definition bind {A B : Type} (m : result A) (k : A -> result B) : result B :=
  match m with
  | Ok a => k a
  | Raise e => Raise e
  end.

Notation "x <- m ;; k" := (bind m (fun x => k))
  (at level 61, m at next level, right associativity).

(** [try: body except handled: handler]: the handler runs for the listed
    exceptions only, any other exception propagates. *)
Definition try_except {A : Type} (body : result A) (handled : exn -> bool)
    (handler : exn -> result A) : result A :=
  match body with
  | Ok a => Ok a
  | Raise e => if handled e then handler e else Raise e
  end.

(** ** Python numbers *)

Definition Qlt_bool (a b : Q) : bool := negb (Qle_bool b a).

(** [max(a, b)]: the first argument is kept unless the second is strictly
    greater. *)
Definition py_max (a b : Q) : Q := if Qlt_bool a b then b else a.

(** [a / b] on floats raises on a zero divisor. *)
Definition py_div (a b : Q) : result Q :=
  if Qeq_bool b 0 then Raise ZeroDivisionError else Ok (a / b).

(** ** Python strings *)

Definition is_upper (c : ascii) : bool :=
  let n := nat_of_ascii c in ((65 <=? n) && (n <=? 90))%nat.

Definition lower_ascii (c : ascii) : ascii :=
  if is_upper c then ascii_of_nat (nat_of_ascii c + 32) else c.

(** [s.lower()] *)
Fixpoint lower (s : string) : string :=
  match s with
  | EmptyString => EmptyString
  | String c s' => String (lower_ascii c) (lower s')
  end.

(** Whitespace as [str.isspace] sees it in the ASCII range:
    TAB, LF, VT, FF, CR, FS, GS, RS, US and SPACE. *)
Definition is_space (c : ascii) : bool :=
  let n := nat_of_ascii c in
  (((9 <=? n) && (n <=? 13)) || ((28 <=? n) && (n <=? 32)))%nat.

Definition is_empty (s : string) : bool :=
  match s with
  | EmptyString => true
  | String _ _ => false
  end.

(** [s.split()]: split on runs of whitespace, no empty pieces. [cur] is the
    piece being read. *)
Fixpoint split_ws_from (cur s : string) : list string :=
  match s with
  | EmptyString => if is_empty cur then [] else [cur]
  | String c s' =>
      if is_space c
      then (if is_empty cur then split_ws_from "" s'
            else cur :: split_ws_from "" s')
      else split_ws_from (cur ++ String c "") s'
  end.

Definition split_ws (s : string) : list string := split_ws_from "" s.

(** [a in b] on strings: [a] occurs in [b] as a contiguous substring. *)
Fixpoint str_in (a b : string) : bool :=
  if prefix a b then true
  else match b with
       | EmptyString => false
       | String _ b' => str_in a b'
       end.

(** [s.startswith(p)] *)
Definition startswith (s p : string) : bool := prefix p s.

(** [s.lstrip()], [s.rstrip()], [s.strip()] *)
Fixpoint lstrip (s : string) : string :=
  match s with
  | EmptyString => EmptyString
  | String c s' => if is_space c then lstrip s' else s
  end.

Fixpoint rstrip (s : string) : string :=
  match s with
  | EmptyString => EmptyString
  | String c s' =>
      match rstrip s' with
      | EmptyString => if is_space c then EmptyString else String c EmptyString
      | r => String c r
      end
  end.

Definition strip (s : string) : string := rstrip (lstrip s).

(** [s[n:]] for [n >= 0] *)
Fixpoint str_drop (n : nat) (s : string) : string :=
  match n, s with
  | O, _ => s
  | S n', String _ s' => str_drop n' s'
  | S _, EmptyString => EmptyString
  end.

(** [s.split(sep)] for a non-empty separator. [skip] counts the characters of
    a separator occurrence still to be consumed, [cur] is the piece being
    read. *)
Fixpoint split_from (sep : string) (skip : nat) (cur s : string) : list string :=
  match s with
  | EmptyString => [cur]
  | String c s' =>
      match skip with
      | S k => split_from sep k cur s'
      | O =>
          if prefix sep s
          then cur :: split_from sep (String.length sep - 1) "" s'
          else split_from sep 0 (cur ++ String c "") s'
      end
  end.

Definition str_split (s sep : string) : list string := split_from sep 0 "" s.

(** [l[i]] on a list, raising [IndexError] out of range. *)
Definition py_index {A : Type} (l : list A) (i : nat) : result A :=
  match nth_error l i with
  | Some a => Ok a
  | None => Raise IndexError
  end.

(** ** Python lists: slicing and sorting *)

(** [l[:limit]]: a negative limit counts from the end. *)
Definition py_take {A : Type} (limit : Z) (l : list A) : list A :=
  if (limit <? 0)%Z
  then firstn (List.length l - Z.to_nat (- limit)) l
  else firstn (Z.to_nat limit) l.

(** [sorted(l, key=key, reverse=True)] and [l.sort(key=key, reverse=True)]:
    descending by key, and stable (entries with equal keys keep their
    relative order). Written as a stable insertion sort. *)
Fixpoint insert_desc {A : Type} (key : A -> Q) (x : A) (l : list A) : list A :=
  match l with
  | [] => [x]
  | y :: l' =>
      if Qlt_bool (key x) (key y) then y :: insert_desc key x l' else x :: l
  end.

Definition sorted_reverse {A : Type} (key : A -> Q) (l : list A) : list A :=
  fold_right (insert_desc key) [] l.

(** ** Python dicts (insertion-ordered) *)

Definition dict (V : Type) : Type := list (string * V).

Fixpoint dict_get {V : Type} (d : dict V) (k : string) : option V :=
  match d with
  | [] => None
  | (k', v) :: d' => if String.eqb k' k then Some v else dict_get d' k
  end.

(** [d.get(k, default)] *)
Definition dict_get_default {V : Type} (d : dict V) (k : string) (default : V) : V :=
  match dict_get d k with
  | Some v => v
  | None => default
  end.

(** [d[k] = v]: a present key keeps its position, a new key goes last. *)
Fixpoint dict_set {V : Type} (d : dict V) (k : string) (v : V) : dict V :=
  match d with
  | [] => [(k, v)]
  | (k', v') :: d' =>
      if String.eqb k' k then (k', v) :: d' else (k', v') :: dict_set d' k v
  end.

Definition keys {V : Type} (d : dict V) : list string := map fst d.

(** ** rapidfuzz (external library) *)

(** A scorer such as [fuzz.ratio]: a similarity on the scale 0..100. *)
Definition Scorer : Type := string -> string -> Q.

Fixpoint enumerate_from {A : Type} (i : nat) (l : list A) : list (nat * A) :=
  match l with
  | [] => []
  | a :: l' => (i, a) :: enumerate_from (S i) l'
  end.

Definition match_score (r : string * Q * nat) : Q := snd (fst r).

(** [process.extract(query, choices, scorer=scorer, limit=limit,
    score_cutoff=score_cutoff)], after the library's contract: every choice
    is scored, the ones below the cutoff are dropped, and the [limit] best
    are returned as (choice, score, index), highest score first and in
    choice order among equal scores. *)
Definition extract (scorer : Scorer) (query : string) (choices : list string)
    (limit : nat) (score_cutoff : Q) : list (string * Q * nat) :=
  let scored :=
    map (fun ic => (snd ic, scorer query (snd ic), fst ic))
        (enumerate_from 0 choices) in
  let kept := filter (fun r => Qle_bool score_cutoff (match_score r)) scored in
  firstn limit (sorted_reverse match_score kept).

(** ** compare.py *)

(** The loop at lines 46-49: exact and substring matches of one word. *)
Definition substring_pass (word : string) (notes : list string)
    (candidates : dict Q) : dict Q :=
  fold_left
    (fun candidates note =>
       let note_lower := lower note in
       if str_in note_lower word || str_in word note_lower
       then dict_set candidates note
              (py_max (dict_get_default candidates note 0) 1)
       else candidates)
    notes candidates.

(** The loops at lines 59-60 and 70-71: fuzzy matches merged by [max]. *)
Definition merge_matches (matches : list (string * Q * nat))
    (candidates : dict Q) : dict Q :=
  fold_left
    (fun candidates r =>
       let '(match_, score, _) := r in
       dict_set candidates match_
         (py_max (dict_get_default candidates match_ 0) (score / 100)))
    matches candidates.

(** One iteration of [for word in words] (lines 41-60). *)
Definition word_pass (scorer : Scorer) (notes : list string)
    (candidates : dict Q) (word : string) : dict Q :=
  if (String.length word <? 3)%nat then candidates
  else
    let candidates := substring_pass word notes candidates in
    let matches := extract scorer word notes 5 60 in
    merge_matches matches candidates.

(** The [candidates] dict of [fuzzy_search] just before it is sorted
    (lines 38-71). *)
Definition fuzzy_candidates (scorer : Scorer) (query : string)
    (notes : list string) : dict Q :=
  let words := split_ws (lower query) in
  let candidates := fold_left (word_pass scorer notes) words [] in
  let full_matches := extract scorer query notes 5 50 in
  merge_matches full_matches candidates.

Definition fuzzy_search (scorer : Scorer) (query : string)
    (notes : list string) (limit : Z) : list (string * Q) :=
  let candidates := fuzzy_candidates scorer query notes in
  let sorted_candidates := sorted_reverse snd candidates in
  py_take limit sorted_candidates.

(** An embedding vector and the sentence-transformer model
    ([model.encode(text, normalize_embeddings=True)]). *)
Definition Vec : Type := list Q.
Definition Model : Type := string -> Vec.

(** [np.dot] on two 1-D arrays; shapes that differ raise [ValueError]. *)
Fixpoint np_dot (u v : Vec) : result Q :=
  match u, v with
  | [], [] => Ok 0
  | a :: u', b :: v' => r <- np_dot u' v' ;; Ok (a * b + r)
  | _, _ => Raise ValueError
  end.

(** The loop at lines 94-97, appending to [similarities]. *)
Fixpoint vector_candidates (query_embedding : Vec)
    (items : list (string * Vec)) (threshold : Q)
    (similarities : list (string * Q)) : result (list (string * Q)) :=
  match items with
  | [] => Ok similarities
  | (note, embedding) :: rest =>
      similarity <- np_dot query_embedding embedding ;;
      vector_candidates query_embedding rest threshold
        (if Qle_bool threshold similarity
         then similarities ++ [(note, similarity)]
         else similarities)
  end.

Definition vector_search (model : Model) (query : string)
    (note_embeddings : dict Vec) (limit : Z) (threshold : Q)
    : result (list (string * Q)) :=
  let query_embedding := model ("query: " ++ query) in
  similarities <- vector_candidates query_embedding note_embeddings threshold [] ;;
  Ok (py_take limit (sorted_reverse snd similarities)).

(** Lines 128-129: the fuzzy results weighted by 0.4. *)
Definition add_fuzzy_results (fuzzy_results : list (string * Q))
    (combined : dict Q) : dict Q :=
  fold_left
    (fun combined r =>
       let '(note, score) := r in
       dict_set combined note
         (dict_get_default combined note 0 + score * (2 # 5)))
    fuzzy_results combined.

(** Lines 132-135: the vector results, normalised and weighted by 0.6. *)
Fixpoint add_vector_results (vector_threshold : Q)
    (vector_results : list (string * Q)) (combined : dict Q)
    : result (dict Q) :=
  match vector_results with
  | [] => Ok combined
  | (note, score) :: rest =>
      normalized <- py_div (score - vector_threshold) (1 - vector_threshold) ;;
      add_vector_results vector_threshold rest
        (dict_set combined note
           (dict_get_default combined note 0 + normalized * (3 # 5)))
  end.

(** The [combined] dict of [hybrid_search] just before it is sorted
    (lines 119-135). *)
Definition hybrid_combined (scorer : Scorer) (model : Model) (query : string)
    (notes : list string) (note_embeddings : dict Vec) (vector_threshold : Q)
    : result (dict Q) :=
  let fuzzy_results := fuzzy_search scorer query notes 20 in
  vector_results <- vector_search model query note_embeddings 20 vector_threshold ;;
  let combined := add_fuzzy_results fuzzy_results [] in
  add_vector_results vector_threshold vector_results combined.

Definition hybrid_search (scorer : Scorer) (model : Model) (query : string)
    (notes : list string) (note_embeddings : dict Vec) (limit : Z)
    (vector_threshold : Q) : result (list (string * Q)) :=
  combined <- hybrid_combined scorer model query notes note_embeddings
                vector_threshold ;;
  let sorted_results := sorted_reverse snd combined in
  Ok (py_take limit sorted_results).

(** A stand-in for [fuzz.ratio] to run examples with: the normalised Indel
    similarity [100 * 2*lcs(a,b) / (len a + len b)], and 100 for two empty
    strings. *)
Fixpoint lcs (a b : string) : nat :=
  match a with
  | EmptyString => 0%nat
  | String x a' =>
      (fix lcs_row (b : string) : nat :=
         match b with
         | EmptyString => 0%nat
         | String y b' =>
             if Ascii.eqb x y then S (lcs a' b')
             else Nat.max (lcs a' b) (lcs_row b')
         end) b
  end.

Definition indel_ratio : Scorer :=
  fun a b =>
    let total := (String.length a + String.length b)%nat in
    match total with
    | O => 100
    | S _ => Z.of_nat (200 * lcs a b) # Pos.of_nat total
    end.

(** ** vocabulary.py *)

Definition ALL_NOTES : list string :=
  [
    (* Stone fruits *)
    "peach"; "apricot"; "nectarine"; "plum"; "cherry"; "black cherry";
    "stone fruit"; "prune"; "persimmon";
    (* Citrus *)
    "citrus"; "orange"; "blood orange"; "tangerine"; "mandarin"; "lemon";
    "lime"; "grapefruit"; "bergamot"; "yuzu";
    (* Berry *)
    "berry"; "berries"; "red berries"; "dark berries"; "blueberry";
    "raspberry"; "strawberry"; "blackberry"; "blackcurrant"; "redcurrant";
    "cranberry"; "gooseberry";
    (* Tropical *)
    "tropical"; "mango"; "pineapple"; "papaya"; "passion fruit"; "guava";
    "lychee"; "coconut"; "banana"; "kiwi";
    (* Dried fruits *)
    "raisin"; "date"; "fig"; "dried fruits"; "fruitcake"; "tamarind";
    (* Orchard *)
    "apple"; "green apple"; "pear"; "grape"; "melon"; "watermelon";
    "pomegranate";
    (* Floral *)
    "floral"; "jasmine"; "rose"; "lavender"; "violet"; "hibiscus";
    "honeysuckle"; "geranium"; "chamomile";
    (* Sweet *)
    "honey"; "caramel"; "toffee"; "fudge"; "maple"; "brown sugar";
    "molasses"; "panela"; "candy";
    (* Chocolate *)
    "chocolate"; "dark chocolate"; "milk chocolate"; "cocoa"; "cacao";
    (* Nutty *)
    "nutty"; "almond"; "hazelnut"; "walnut"; "pistachio"; "macadamia";
    "pecan"; "marzipan"; "praline";
    (* Spice *)
    "cinnamon"; "cardamom"; "ginger"; "baking spice";
    (* Tea *)
    "tea"; "black tea"; "green tea"; "oolong"; "darjeeling";
    (* Wine *)
    "wine"; "red wine"; "brandy"; "rum"; "jammy";
    (* Herbal *)
    "herbal"; "lemongrass"; "verbena"; "eucalyptus"; "tobacco";
    (* Baked *)
    "brioche"; "biscuit"; "grains"; "malt";
    (* Creamy *)
    "cream"; "custard"; "vanilla"; "butter";
    (* Other *)
    "fresh"; "crisp"; "bright"; "juicy"; "complex";
    (* Fermented/funky *)
    "fermented"; "wild"; "yeasty"; "boozy"; "winey"
  ].

Definition ALL_PROCESSES : list string :=
  [
    "washed"; "natural"; "honey"; "anaerobic"; "carbonic maceration";
    "double fermentation"; "extended fermentation"; "thermal shock";
    "wet hulled"; "semi-washed"; "pulped natural"
  ].

(** A decoded JSON value; an object is a dict. *)
#[warnings="-register-all"]
Inductive json : Type :=
| JNull
| JBool (b : bool)
| JNumber (q : Q)
| JString (s : string)
| JArray (items : list json)
| JObject (members : dict json).

(** [json.loads] on a string.  It returns the decoded value or raises:
    [json.JSONDecodeError] on a text that is no JSON, and also
    [RecursionError] on arrays or objects nested beyond the interpreter's
    recursion limit and [ValueError] on an integer literal longer than the
    interpreter's digit limit.  Which exception a text raises is the
    decoder's affair; the code below only sees the exception. *)
Definition Decoder : Type := string -> result json.

(** [client.messages.create(...)], seen as a function from the user message to
    the texts of the content blocks of the response (all of them text
    blocks); an API failure is raised. *)
Definition Client : Type := string -> result (list string).

Definition dquote : string := String (ascii_of_nat 34) EmptyString.
Definition fence : string := "```".

(** [{"mappedNotes": [], "mappedProcesses": []}] *)
Definition empty_mappings : json :=
  JObject [("mappedNotes", JArray []); ("mappedProcesses", JArray [])].

(** Lines 173-179, the body of the [try]. *)
Definition parse_response (json_loads : Decoder) (content : list string)
    : result json :=
  block <- py_index content 0 ;;
  let text := strip block in
  text <- (if startswith text fence
           then
             text <- py_index (str_split text fence) 1 ;;
             Ok (if startswith text "json" then str_drop 4 text else text)
           else Ok text) ;;
  json_loads text.

(** [except (json.JSONDecodeError, IndexError)] *)
Definition parse_failure (e : exn) : bool :=
  match e with
  | JSONDecodeError | IndexError => true
  | _ => false
  end.

(** The user message of the request (line 169). *)
Definition user_message (term : string) : string :=
  "Map this coffee search term: " ++ dquote ++ term ++ dquote.

Definition get_llm_mappings (json_loads : Decoder) (client : Client)
    (term : string) : result json :=
  content <- client (user_message term) ;;
  try_except (parse_response json_loads content) parse_failure
    (fun _ => Ok empty_mappings).

(** [mappings.get(field, [])] as the caller reads it (lines 221-222). *)
Definition mapped (field : string) (mappings : json) : option json :=
  match mappings with
  | JObject members =>
      Some (dict_get_default members field (JArray []))
  | _ => None
  end.

(** The shape the spec gives to the oracle's answer: [mappedNotes] holds at
    most 8 strings, each one of [ALL_NOTES], and [mappedProcesses] holds at
    most 3 entries. *)
Definition is_note (j : json) : bool :=
  match j with
  | JString s => existsb (String.eqb s) ALL_NOTES
  | _ => false
  end.

Definition mapping_shape_ok (mappings : json) : bool :=
  match mapped "mappedNotes" mappings, mapped "mappedProcesses" mappings with
  | Some (JArray mapped_notes), Some (JArray mapped_processes) =>
      (List.length mapped_notes <=? 8)%nat && forallb is_note mapped_notes
      && (List.length mapped_processes <=? 3)%nat
  | _, _ => false
  end.

(** *** A small JSON decoder to run examples with

    It reads objects, arrays, strings with the simple escapes, integers and
    the three literals, and raises [JSONDecodeError] on anything else.  Like
    CPython's decoder it raises [RecursionError] when values nest deeper
    than the recursion limit leaves room for, and [ValueError] on an integer
    literal of more than 4300 digits. *)

(** The nesting the decoder can enter: CPython's default recursion limit is
    1000 frames, of which the caller's are in use. *)
Definition RECURSION_LIMIT : nat := 990.

(** [sys.int_info.default_max_str_digits] *)
Definition MAX_STR_DIGITS : nat := 4300.

Definition is_json_ws (c : ascii) : bool :=
  let n := nat_of_ascii c in
  ((n =? 32) || (n =? 9) || (n =? 10) || (n =? 13))%nat.

Fixpoint skip_ws (s : string) : string :=
  match s with
  | EmptyString => EmptyString
  | String c s' => if is_json_ws c then skip_ws s' else s
  end.

Definition unescape (c : ascii) : option ascii :=
  match nat_of_ascii c with
  | 34%nat => Some (ascii_of_nat 34)   (* quote *)
  | 92%nat => Some (ascii_of_nat 92)   (* backslash *)
  | 47%nat => Some (ascii_of_nat 47)   (* slash *)
  | 98%nat => Some (ascii_of_nat 8)    (* b *)
  | 102%nat => Some (ascii_of_nat 12)  (* f *)
  | 110%nat => Some (ascii_of_nat 10)  (* n *)
  | 114%nat => Some (ascii_of_nat 13)  (* r *)
  | 116%nat => Some (ascii_of_nat 9)   (* t *)
  | _ => None
  end.

(** The characters of a string literal after its opening quote. *)
Fixpoint parse_string_body (acc s : string) : result (string * string) :=
  match s with
  | EmptyString => Raise JSONDecodeError
  | String c s' =>
      match nat_of_ascii c with
      | 34%nat => Ok (acc, s')
      | 92%nat =>
          match s' with
          | String e s'' =>
              match unescape e with
              | Some c' => parse_string_body (acc ++ String c' "") s''
              | None => Raise JSONDecodeError
              end
          | EmptyString => Raise JSONDecodeError
          end
      | n => if (n <? 32)%nat then Raise JSONDecodeError
             else parse_string_body (acc ++ String c "") s'
      end
  end.

Definition is_digit (c : ascii) : bool :=
  let n := nat_of_ascii c in ((48 <=? n) && (n <=? 57))%nat.

Fixpoint parse_digits (acc : Z) (s : string) : Z * string :=
  match s with
  | String c s' =>
      if is_digit c
      then parse_digits (10 * acc + Z.of_nat (nat_of_ascii c - 48))%Z s'
      else (acc, s)
  | EmptyString => (acc, s)
  end.

Fixpoint count_digits (s : string) : nat :=
  match s with
  | String c s' => if is_digit c then S (count_digits s') else O
  | EmptyString => O
  end.

(** An integer: an optional minus sign, then [0] or a digit string without a
    leading zero; a fraction or an exponent is not read. *)
Definition parse_integer (s : string) : result (Z * string) :=
  let '(negative, s) :=
    match s with
    | String "-" s' => (true, s')
    | _ => (false, s)
    end in
  match s with
  | String c s' =>
      if is_digit c then
        let '(n, rest) :=
          if Ascii.eqb c "0" then (0%Z, s') else parse_digits 0 s in
        let value := ((if negative then - n else n)%Z, rest) in
        match rest with
        | String d _ =>
            if is_digit d || Ascii.eqb d "." || Ascii.eqb d "e" || Ascii.eqb d "E"
            then Raise JSONDecodeError
            else if (MAX_STR_DIGITS <? count_digits s)%nat then Raise ValueError
            else Ok value
        | EmptyString =>
            if (MAX_STR_DIGITS <? count_digits s)%nat then Raise ValueError
            else Ok value
        end
      else Raise JSONDecodeError
  | EmptyString => Raise JSONDecodeError
  end.

(** [depth] is the nesting still allowed, [fuel] bounds the number of
    calls. *)
Fixpoint parse_value (depth fuel : nat) (s : string) : result (json * string) :=
  match fuel, depth with
  | O, _ => Raise JSONDecodeError
  | S _, O => Raise RecursionError
  | S fuel', S depth' =>
      let s := skip_ws s in
      match s with
      | EmptyString => Raise JSONDecodeError
      | String c s' =>
          if Ascii.eqb c (ascii_of_nat 34) then
            r <- parse_string_body "" s' ;;
            Ok (JString (fst r), snd r)
          else if Ascii.eqb c "[" then
            match skip_ws s' with
            | String "]" rest => Ok (JArray [], rest)
            | _ =>
                r <- parse_elements depth' fuel' s' ;;
                Ok (JArray (fst r), snd r)
            end
          else if Ascii.eqb c "{" then
            match skip_ws s' with
            | String "}" rest => Ok (JObject [], rest)
            | _ =>
                r <- parse_members depth' fuel' s' ;;
                Ok (JObject
                      (fold_left (fun d kv => dict_set d (fst kv) (snd kv))
                         (fst r) []),
                    snd r)
            end
          else if prefix "null" s then Ok (JNull, str_drop 4 s)
          else if prefix "true" s then Ok (JBool true, str_drop 4 s)
          else if prefix "false" s then Ok (JBool false, str_drop 5 s)
          else
            r <- parse_integer s ;;
            Ok (JNumber (inject_Z (fst r)), snd r)
      end
  end

with parse_elements (depth fuel : nat) (s : string)
    : result (list json * string) :=
  match fuel with
  | O => Raise JSONDecodeError
  | S fuel' =>
      r <- parse_value depth fuel' s ;;
      match skip_ws (snd r) with
      | String "," rest' =>
          rs <- parse_elements depth fuel' rest' ;;
          Ok (fst r :: fst rs, snd rs)
      | String "]" rest' => Ok ([fst r], rest')
      | _ => Raise JSONDecodeError
      end
  end

with parse_members (depth fuel : nat) (s : string)
    : result (list (string * json) * string) :=
  match fuel with
  | O => Raise JSONDecodeError
  | S fuel' =>
      match skip_ws s with
      | String c s' =>
          if Ascii.eqb c (ascii_of_nat 34) then
            key <- parse_string_body "" s' ;;
            match skip_ws (snd key) with
            | String ":" rest' =>
                r <- parse_value depth fuel' rest' ;;
                match skip_ws (snd r) with
                | String "," rest3 =>
                    rs <- parse_members depth fuel' rest3 ;;
                    Ok ((fst key, fst r) :: fst rs, snd rs)
                | String "}" rest3 => Ok ([(fst key, fst r)], rest3)
                | _ => Raise JSONDecodeError
                end
            | _ => Raise JSONDecodeError
            end
          else Raise JSONDecodeError
      | EmptyString => Raise JSONDecodeError
      end
  end.

Definition json_loads_lite : Decoder :=
  fun s =>
    r <- parse_value RECURSION_LIMIT (2 * String.length s + 2) s ;;
    if is_empty (skip_ws (snd r)) then Ok (fst r) else Raise JSONDecodeError.

(** Writes a text that holds double quotes with apostrophes in their place:
    [dq "{'a': 1}"] is the text [{"a": 1}]. *)
Fixpoint dq (s : string) : string :=
  match s with
  | EmptyString => EmptyString
  | String c s' =>
      String (if Ascii.eqb c "'" then ascii_of_nat 34 else c) (dq s')
  end.

(** ** Vocabulary of the statements *)

(** Sorted by decreasing key. *)
Definition descending {A : Type} (key : A -> Q) (l : list A) : Prop :=
  StronglySorted (fun a b => key b <= key a) l.

(** [x] stands somewhere before [y] in [l]. *)
Definition before {A : Type} (x y : A) (l : list A) : Prop :=
  exists l1 l2 l3, l = (l1 ++ x :: l2 ++ y :: l3)%list.

(** The entries of [l] whose key equals [q], in the order of [l]. *)
Definition with_key {A : Type} (key : A -> Q) (q : Q) (l : list A) : list A :=
  filter (fun a => Qeq_bool (key a) q) l.

(** *** The passes of the lexical matcher, as the spec lists them

    Step 1: the surviving tokens.  Step 2: the substring hits of a token,
    each worth 1.0.  Steps 3 and 4: the fuzzy hits of a token (cutoff 60) and
    of the whole query (cutoff 50), each worth score/100.  [pass_scores]
    lists every (term, score) the passes produce, in the order the code
    produces them. *)

Definition surviving_tokens (query : string) : list string :=
  filter (fun word => negb (String.length word <? 3)%nat) (split_ws (lower query)).

Definition contains_either (word note : string) : bool :=
  str_in (lower note) word || str_in word (lower note).

Definition substring_hits (word : string) (notes : list string)
    : list (string * Q) :=
  map (fun note => (note, 1)) (filter (contains_either word) notes).

Definition fuzzy_hits (matches : list (string * Q * nat)) : list (string * Q) :=
  map (fun r => (fst (fst r), match_score r / 100)) matches.

Definition token_hits (scorer : Scorer) (notes : list string) (word : string)
    : list (string * Q) :=
  (substring_hits word notes ++ fuzzy_hits (extract scorer word notes 5 60))%list.

Definition pass_scores (scorer : Scorer) (query : string) (notes : list string)
    : list (string * Q) :=
  (flat_map (token_hits scorer notes) (surviving_tokens query)
   ++ fuzzy_hits (extract scorer query notes 5 50))%list.

(** The max-reduction over a term-keyed mapping. *)
Definition max_merge (hits : list (string * Q)) (candidates : dict Q) : dict Q :=
  fold_left
    (fun candidates hit =>
       dict_set candidates (fst hit)
         (py_max (dict_get_default candidates (fst hit) 0) (snd hit)))
    hits candidates.

(** The entries the semantic matcher keeps: one per stored embedding whose
    similarity with the query embedding reaches the threshold, in the order
    of the mapping. *)
Definition kept_similarities (query_embedding : Vec) (threshold : Q)
    (items : list (string * Vec)) : list (string * Q) :=
  flat_map
    (fun item =>
       match np_dot query_embedding (snd item) with
       | Ok similarity =>
           if Qle_bool threshold similarity then [(fst item, similarity)] else []
       | Raise _ => []
       end)
    items.

(** Every stored embedding has the dimension of the query embedding. *)
Definition same_dimension (query_embedding : Vec) (items : list (string * Vec))
    : Prop :=
  Forall (fun item => List.length (snd item) = List.length query_embedding) items.

(** ** Data for the examples

    A two-dimensional embedding space: every query is embedded as (1, 0), so
    the similarity of a stored unit vector is its first coordinate. *)
Definition example_model : Model := fun _ => [1; 0].

Definition example_embeddings : dict Vec :=
  [("plum", [1; 0]); ("peach", [3 # 5; 4 # 5]); ("berry", [0; 1])].

Definition example_notes : list string := ["plum"; "peach"; "berry"].

(** A second model, which agrees with [example_model] on the text
    "query: plums" only. *)
Definition other_model : Model :=
  fun text => if String.eqb text "query: plums" then [1; 0] else [0; 1].

(** A vocabulary of two terms, both orthogonal to every query. *)
Definition berry_notes : list string := ["berry"; "cherry"].

Definition berry_embeddings : dict Vec :=
  [("berry", [0; 1]); ("cherry", [0; 1])].

(** *** The fusion step, as the spec words it

    Each matcher's scores are weighted and added into one mapping keyed by
    term. [normalize] is the re-normalisation of a semantic score,
    [discovery_order] the order in which terms enter the mapping: the lexical
    results first, then the semantic results not seen before. *)

Definition accumulate (weigh : Q -> Q) (results : list (string * Q))
    (combined : dict Q) : dict Q :=
  fold_left
    (fun combined r =>
       dict_set combined (fst r)
         (dict_get_default combined (fst r) 0 + weigh (snd r)))
    results combined.

Definition normalize (vector_threshold score : Q) : Q :=
  (score - vector_threshold) / (1 - vector_threshold).

Definition lexical_weight (score : Q) : Q := score * (2 # 5).

Definition vector_weight (vector_threshold score : Q) : Q :=
  normalize vector_threshold score * (3 # 5).

Definition has_key {V : Type} (d : dict V) (k : string) : bool :=
  match dict_get d k with
  | Some _ => true
  | None => false
  end.

Definition discovery_order (fuzzy_results vector_results : list (string * Q))
    : list string :=
  (keys fuzzy_results
   ++ filter (fun k => negb (has_key fuzzy_results k)) (keys vector_results))%list.

(** The reading of the tie rule that the spec's data model gives: entries
    with equal scores stand in the order of the vocabulary. *)
Definition ties_in_vocabulary_order (notes : list string)
    (res : list (string * Q)) : Prop :=
  forall x y, before x y res -> snd x == snd y -> before (fst x) (fst y) notes.

(** Every character of [s] passes [p]. *)
Fixpoint str_forall (p : ascii -> bool) (s : string) : bool :=
  match s with
  | EmptyString => true
  | String c s' => p c && str_forall p s'
  end.

Definition not_backtick (c : ascii) : bool := negb (Ascii.eqb c "`").

(** Oracle answers for the examples. *)
Definition nl : string := String (ascii_of_nat 10) EmptyString.

Definition example_client (answer : string) : Client := fun _ => Ok [answer].

Definition fenced_body : string :=
  nl ++ dq "{'mappedNotes': ['berry', 'jammy'], 'mappedProcesses': ['natural']}"
     ++ nl.

Definition fenced_answer : string := fence ++ ("json" ++ fenced_body) ++ fence.

(** [s * n] *)
Fixpoint str_repeat (s : string) (n : nat) : string :=
  match n with
  | O => ""
  | S n' => s ++ str_repeat s n'
  end.

(** An answer of a thousand opening brackets: no JSON, and nested too deep
    for the decoder to say so. *)
Definition deep_answer : string := str_repeat "[" 1000.

(** An answer that is one integer of 4301 digits: [json.loads] raises
    [ValueError] on it (the limit of the conversion from [str] to [int]). *)
Definition long_integer_answer : string := str_repeat "1" 4301.

Definition unicorn_answer : string :=
  dq "{'mappedNotes': ['unicorn'], 'mappedProcesses': []}".

(** How many entries [l[:limit]] keeps of a list of [n]. *)
Definition take_count (limit : Z) (n : nat) : nat :=
  if (limit <? 0)%Z then n - Z.to_nat (- limit) else Nat.min (Z.to_nat limit) n.

(** ** compare.py, [main]: loading the snapshot (lines 155-157)

    [embeddings_data] is the list of stored entries, each a note with its
    embedding; the dict comprehension inserts them in order. *)
Definition load_note_embeddings (embeddings_data : list (string * Vec))
    : dict Vec :=
  fold_left (fun d e => dict_set d (fst e) (snd e)) embeddings_data [].

(** [notes = list(note_embeddings.keys())] *)
Definition load_notes (embeddings_data : list (string * Vec)) : list string :=
  keys (load_note_embeddings embeddings_data).

(** ** embed.py *)

(** A coffee document as [build_text_blob] reads it: [None] is a missing
    key. *)
Record Coffee : Type := {
  coffee_notes : option (list string);
  coffee_process : option (list string);
  coffee_protocol : option (list string);
  coffee_roastLevel : option string;
  coffee_roastedFor : option string;
  coffee_country : option (list string);
  coffee_region : option (list string);
  coffee_variety : option (list string)
}.

(** [sep.join(l)] *)
Fixpoint str_join (sep : string) (l : list string) : string :=
  match l with
  | [] => ""
  | [x] => x
  | x :: l' => x ++ sep ++ str_join sep l'
  end.

(** [if coffee.get(key): parts.append(". ".join(coffee[key]))]: a missing
    key and an empty list are both falsy. *)
Definition append_joined (field : option (list string)) (parts : list string)
    : list string :=
  match field with
  | Some (x :: l) => (parts ++ [str_join ". " (x :: l)])%list
  | _ => parts
  end.

(** [if coffee.get(key): parts.append(coffee[key])]: a missing key and an
    empty string are both falsy. *)
Definition append_text (field : option string) (parts : list string)
    : list string :=
  match field with
  | Some s => if is_empty s then parts else (parts ++ [s])%list
  | None => parts
  end.

Definition build_text_blob (coffee : Coffee) : string :=
  let parts := [] in
  let parts := append_joined (coffee_notes coffee) parts in
  let parts := append_joined (coffee_process coffee) parts in
  let parts := append_joined (coffee_protocol coffee) parts in
  let parts := append_text (coffee_roastLevel coffee) parts in
  let parts := append_text (coffee_roastedFor coffee) parts in
  let parts := append_joined (coffee_country coffee) parts in
  let parts := append_joined (coffee_region coffee) parts in
  let parts := append_joined (coffee_variety coffee) parts in
  str_join ". " parts.

(** The values of a coffee, field by field in the order of the source. *)
Definition list_items (field : option (list string)) : list string :=
  match field with
  | Some l => l
  | None => []
  end.

Definition text_items (field : option string) : list string :=
  match field with
  | Some s => if is_empty s then [] else [s]
  | None => []
  end.

Definition coffee_items (coffee : Coffee) : list string :=
  (list_items (coffee_notes coffee) ++ list_items (coffee_process coffee)
   ++ list_items (coffee_protocol coffee)
   ++ text_items (coffee_roastLevel coffee)
   ++ text_items (coffee_roastedFor coffee)
   ++ list_items (coffee_country coffee) ++ list_items (coffee_region coffee)
   ++ list_items (coffee_variety coffee))%list.

(** *** Batches (embed.py lines 94-95, notes.py lines 110-111) *)

(** [range(start, stop, step)] for a step that is not negative; a zero step
    raises [ValueError]. *)
Fixpoint range_from (fuel start stop step : nat) : list nat :=
  match fuel with
  | O => []
  | S fuel' =>
      if (start <? stop)%nat
      then start :: range_from fuel' (start + step) stop step
      else []
  end.

Definition py_range (start stop step : nat) : result (list nat) :=
  match step with
  | O => Raise ValueError
  | S _ => Ok (range_from stop start stop step)
  end.

(** [l[i:j]] for [0 <= i] and [0 <= j] *)
Definition py_slice {A : Type} (i j : nat) (l : list A) : list A :=
  firstn (j - i) (skipn i l).

(** [for i in range(0, len(items), batch_size):
       batch = items[i : i + batch_size]] *)
Definition batches {A : Type} (batch_size : nat) (items : list A)
    : result (list (list A)) :=
  starts <- py_range 0 (List.length items) batch_size ;;
  Ok (map (fun i => py_slice i (i + batch_size) items) starts).

(** [BATCH_SIZE] of embed.py and of notes.py *)
Definition EMBED_BATCH_SIZE : nat := 50.
Definition NOTES_BATCH_SIZE : nat := 100.

(** The parts of the blob for a list of value groups: one joined part per
    non-empty group. *)
Definition joined_groups (groups : list (list string)) : list string :=
  flat_map (fun g => match g with [] => [] | _ :: _ => [str_join ". " g] end)
    groups.

(** ** notes.py, [main] with [--all]: the distinct notes (lines 93-97)

    A Python [set] of strings is a duplicate-free list here; its order is
    immaterial, since the set is only read through [sorted]. *)
Definition set_add (s : list string) (x : string) : list string :=
  if existsb (String.eqb x) s then s else (s ++ [x])%list.

(** [for coffee in coffees: for note in coffee.get("notes", []):
       all_notes.add(note.lower())] *)
Definition collect_notes (coffees : list Coffee) : list string :=
  fold_left
    (fun all_notes coffee =>
       fold_left (fun all_notes note => set_add all_notes (lower note))
         (list_items (coffee_notes coffee)) all_notes)
    coffees [].

(** [sorted(l)] on strings: ascending by code points, written as an
    insertion sort. *)
Fixpoint insert_asc (x : string) (l : list string) : list string :=
  match l with
  | [] => [x]
  | y :: l' => if String.ltb y x then y :: insert_asc x l' else x :: l
  end.

Definition sorted_strings (l : list string) : list string :=
  fold_right insert_asc [] l.

Definition distinct_notes (coffees : list Coffee) : list string :=
  sorted_strings (collect_notes coffees).

(** The notes of a list of coffees, lowercased. *)
Definition lowered_note (coffees : list Coffee) (x : string) : Prop :=
  exists coffee note,
    In coffee coffees /\ In note (list_items (coffee_notes coffee)) /\
    x = lower note.

Definition str_lt (a b : string) : Prop := String.ltb a b = true.

(** ** vocabulary.py, [main]: building the entries (lines 204-223) *)

(** One entry of the vocabulary cache. *)
Record VocabularyEntry : Type := {
  entry_term : string;
  entry_embedding : Vec;
  entry_mappedNotes : json;
  entry_mappedProcesses : json
}.

(** What stops [main]: an exception of a call it makes, or the
    [AttributeError] of [mappings.get] on a decoded value that is no
    object. *)
Inductive abort : Type :=
| Uncaught (e : exn)
| AttributeError.

Inductive outcome (A : Type) : Type :=
| Built (a : A)
| Aborted (why : abort).
Arguments Built {A} a.
Arguments Aborted {A} why.

(** The body of [for i, term in enumerate(terms)] (lines 209-223), without
    the printing. *)
Definition build_entry (json_loads : Decoder) (client : Client) (model : Model)
    (term : string) : outcome VocabularyEntry :=
  match get_llm_mappings json_loads client term with
  | Raise e => Aborted (Uncaught e)
  | Ok mappings =>
      let embedding := model ("query: " ++ term) in
      match mapped "mappedNotes" mappings, mapped "mappedProcesses" mappings with
      | Some mapped_notes, Some mapped_processes =>
          Built {| entry_term := term;
                   entry_embedding := embedding;
                   entry_mappedNotes := mapped_notes;
                   entry_mappedProcesses := mapped_processes |}
      | _, _ => Aborted AttributeError
      end
  end.

(** The loop: the entries are appended term by term, and an exception leaves
    the loop before anything is pushed. *)
Fixpoint build_entries (json_loads : Decoder) (client : Client) (model : Model)
    (terms : list string) : outcome (list VocabularyEntry) :=
  match terms with
  | [] => Built []
  | term :: rest =>
      match build_entry json_loads client model term with
      | Aborted why => Aborted why
      | Built entry =>
          match build_entries json_loads client model rest with
          | Built entries => Built (entry :: entries)
          | Aborted why => Aborted why
          end
      end
  end.

(** A decoded value that is a JSON object. *)
Definition is_object (value : json) : bool :=
  match value with
  | JObject _ => true
  | _ => false
  end.

(** A coffee for the examples. *)
Definition example_coffee : Coffee :=
  {| coffee_notes := Some ["Peach"; "plum"; "PEACH"];
     coffee_process := Some ["washed"];
     coffee_protocol := None;
     coffee_roastLevel := Some "light";
     coffee_roastedFor := Some "";
     coffee_country := Some ["Kenya"];
     coffee_region := Some [];
     coffee_variety := Some ["SL28"; "SL34"] |}.

(* ================================================================== *)
(** * Part II. Properties *)
(* ================================================================== *)

(** ** Comparisons and [max] on scores *)

Lemma Qlt_bool_iff (a b : Q) : Qlt_bool a b = true <-> a < b.
Proof.
  unfold Qlt_bool. rewrite negb_true_iff. split.
  - intros H. apply Qnot_le_lt. intros Hle.
    apply Qle_bool_iff in Hle. congruence.
  - intros H. destruct (Qle_bool b a) eqn:E; [|reflexivity].
    apply Qle_bool_iff in E. exfalso. exact (Qlt_not_le _ _ H E).
Qed.

Lemma Qlt_bool_false_iff (a b : Q) : Qlt_bool a b = false <-> b <= a.
Proof.
  unfold Qlt_bool. rewrite negb_false_iff. apply Qle_bool_iff.
Qed.

Lemma py_max_cases (a b : Q) :
  (py_max a b = a /\ b <= a) \/ (py_max a b = b /\ a < b).
Proof.
  unfold py_max. destruct (Qlt_bool a b) eqn:E.
  - right. split; [reflexivity|]. now apply Qlt_bool_iff.
  - left. split; [reflexivity|]. now apply Qlt_bool_false_iff.
Qed.

Lemma py_max_zero (x : Q) : 0 < x -> py_max 0 x = x.
Proof.
  intros H. unfold py_max. apply Qlt_bool_iff in H. now rewrite H.
Qed.

(** ** Dicts *)

Section Dicts.
Context {V : Type}.
Implicit Types (d : dict V) (k t : string) (v : V).

Lemma dict_get_set_same d k v : dict_get (dict_set d k v) k = Some v.
Proof.
  induction d as [|[k' v'] d IH]; simpl.
  - now rewrite String.eqb_refl.
  - destruct (String.eqb k' k) eqn:E; simpl; rewrite E; auto.
Qed.

Lemma dict_get_set_other d k t v :
  k <> t -> dict_get (dict_set d k v) t = dict_get d t.
Proof.
  intros Hne. induction d as [|[k' v'] d IH]; simpl.
  - apply String.eqb_neq in Hne. now rewrite Hne.
  - destruct (String.eqb k' k) eqn:E; simpl.
    + apply String.eqb_eq in E. subst k'.
      apply String.eqb_neq in Hne. now rewrite Hne.
    + now rewrite IH.
Qed.

Lemma dict_get_In d k v : dict_get d k = Some v -> In (k, v) d.
Proof.
  induction d as [|[k' v'] d IH]; simpl; [discriminate|].
  destruct (String.eqb k' k) eqn:E.
  - apply String.eqb_eq in E. intros [= ->]. subst. now left.
  - intros H. right. auto.
Qed.

Lemma dict_get_None d k : dict_get d k = None <-> ~ In k (keys d).
Proof.
  induction d as [|[k' v'] d IH]; simpl.
  - tauto.
  - destruct (String.eqb k' k) eqn:E.
    + apply String.eqb_eq in E. split; [discriminate|]. intros H.
      exfalso. apply H. now left.
    + apply String.eqb_neq in E. rewrite IH. tauto.
Qed.

Lemma dict_get_Some_key d k v : dict_get d k = Some v -> In k (keys d).
Proof.
  intros H. apply dict_get_In in H. now apply (in_map fst) in H.
Qed.

Lemma In_key_dict_get d k : In k (keys d) -> exists v, dict_get d k = Some v.
Proof.
  intros H. destruct (dict_get d k) eqn:E; [eauto|].
  apply dict_get_None in E. contradiction.
Qed.

Lemma In_dict_get d k v :
  NoDup (keys d) -> In (k, v) d -> dict_get d k = Some v.
Proof.
  induction d as [|[k' v'] d IH]; simpl; [tauto|].
  intros Hnd [H|H].
  - inversion H; subst. now rewrite String.eqb_refl.
  - inversion Hnd as [|? ? Hnotin Hnd']; subst.
    destruct (String.eqb k' k) eqn:E; [|auto].
    apply String.eqb_eq in E. subst. exfalso. apply Hnotin.
    now apply (in_map fst) in H.
Qed.

(** Where [d[k] = v] puts the key. *)
Lemma keys_dict_set d k v :
  keys (dict_set d k v) =
  match dict_get d k with
  | Some _ => keys d
  | None => (keys d ++ [k])%list
  end.
Proof.
  unfold keys.
  induction d as [|[k' v'] d IH]; simpl; [reflexivity|].
  destruct (String.eqb k' k) eqn:E; simpl; [reflexivity|].
  rewrite IH. now destruct (dict_get d k).
Qed.

Lemma NoDup_keys_dict_set d k v :
  NoDup (keys d) -> NoDup (keys (dict_set d k v)).
Proof.
  intros Hnd. rewrite keys_dict_set. destruct (dict_get d k) eqn:E; [assumption|].
  apply dict_get_None in E.
  apply NoDup_rev in Hnd. rewrite <- (rev_involutive (keys d ++ [k])%list).
  apply NoDup_rev. rewrite rev_app_distr. simpl. constructor; [|assumption].
  now rewrite <- in_rev.
Qed.

Lemma In_keys_dict_set d k t v :
  In t (keys (dict_set d k v)) <-> t = k \/ In t (keys d).
Proof.
  rewrite keys_dict_set. destruct (dict_get d k) eqn:E.
  - apply dict_get_Some_key in E. split; [tauto|]. intros [->|H]; assumption.
  - rewrite in_app_iff. simpl. intuition congruence.
Qed.
End Dicts.

(** ** Slices *)

Lemma py_take_prefix {A : Type} (limit : Z) (l : list A) :
  exists rest, l = (py_take limit l ++ rest)%list.
Proof.
  unfold py_take. destruct (limit <? 0)%Z.
  - exists (skipn (List.length l - Z.to_nat (- limit)) l).
    symmetry. apply firstn_skipn.
  - exists (skipn (Z.to_nat limit) l). symmetry. apply firstn_skipn.
Qed.

Lemma firstn_In {A : Type} (n : nat) (l : list A) (x : A) :
  In x (firstn n l) -> In x l.
Proof.
  intros H. rewrite <- (firstn_skipn n l). apply in_or_app. now left.
Qed.

Lemma py_take_In {A : Type} (limit : Z) (l : list A) (x : A) :
  In x (py_take limit l) -> In x l.
Proof.
  destruct (py_take_prefix limit l) as [rest E]. intros H.
  rewrite E. apply in_or_app. now left.
Qed.

Lemma py_take_all {A : Type} (limit : Z) (l : list A) :
  (Z.of_nat (List.length l) <= limit)%Z -> py_take limit l = l.
Proof.
  intros H. unfold py_take.
  destruct (limit <? 0)%Z eqn:E; [apply Z.ltb_lt in E; lia|].
  apply firstn_all2. lia.
Qed.

Lemma py_take_nil {A : Type} (limit : Z) : py_take limit (@nil A) = [].
Proof.
  unfold py_take. destruct (limit <? 0)%Z; apply firstn_nil.
Qed.

(** ** Relative order of two entries *)

Section Before.
Context {A : Type}.
Implicit Types (x y : A) (l : list A).

Lemma before_app_l x y l r : before x y l -> before x y (l ++ r).
Proof.
  intros (l1 & l2 & l3 & ->). exists l1, l2, (l3 ++ r)%list.
  now rewrite <- !app_assoc, <- !app_comm_cons, <- app_assoc.
Qed.

Lemma before_cons a x y l : before x y l -> before x y (a :: l).
Proof.
  intros (l1 & l2 & l3 & ->). now exists (a :: l1), l2, l3.
Qed.

Lemma before_head x y l : In y l -> before x y (x :: l).
Proof.
  intros H. apply in_split in H as (l2 & l3 & ->). now exists [], l2, l3.
Qed.

Lemma before_In x y l : before x y l -> In x l /\ In y l.
Proof.
  intros (l1 & l2 & l3 & ->). split.
  - apply in_or_app. right. now left.
  - apply in_or_app. right. right. apply in_or_app. right. now left.
Qed.

Lemma before_cons_inv a x y l :
  before x y (a :: l) -> (a = x /\ In y l) \/ before x y l.
Proof.
  intros (l1 & l2 & l3 & E). destruct l1 as [|b l1]; simpl in E.
  - inversion E; subst. left. split; [reflexivity|].
    apply in_or_app. right. now left.
  - inversion E; subst. right. now exists l1, l2, l3.
Qed.

Lemma before_filter (p : A -> bool) x y l :
  before x y l -> p x = true -> p y = true -> before x y (filter p l).
Proof.
  intros (l1 & l2 & l3 & ->) Hx Hy.
  exists (filter p l1), (filter p l2), (filter p l3).
  rewrite filter_app. simpl. rewrite Hx, filter_app. simpl. now rewrite Hy.
Qed.

Lemma before_filter_inv (p : A -> bool) x y l :
  before x y (filter p l) -> before x y l.
Proof.
  induction l as [|a l IH]; simpl.
  - intros (l1 & l2 & l3 & E). now destruct l1.
  - destruct (p a).
    + intros H. apply before_cons_inv in H as [[-> Hy]|H].
      * apply before_head. now apply filter_In in Hy.
      * apply before_cons. auto.
    + intros H. apply before_cons. auto.
Qed.
End Before.

(** ** [sorted(..., reverse=True)]: a stable descending sort *)

Section Sorting.
Context {A : Type} (key : A -> Q).
Implicit Types (x y : A) (l : list A).

Lemma insert_desc_perm x l : Permutation (x :: l) (insert_desc key x l).
Proof.
  induction l as [|y l IH]; simpl; [reflexivity|].
  destruct (Qlt_bool (key x) (key y)); [|reflexivity].
  rewrite perm_swap. now apply perm_skip.
Qed.

Lemma sorted_reverse_perm l : Permutation l (sorted_reverse key l).
Proof.
  induction l as [|x l IH]; simpl; [reflexivity|].
  rewrite <- insert_desc_perm. now apply perm_skip.
Qed.

Lemma sorted_reverse_In x l : In x (sorted_reverse key l) <-> In x l.
Proof.
  split; apply Permutation_in;
    [symmetry|]; apply sorted_reverse_perm.
Qed.

Lemma sorted_reverse_length l :
  List.length (sorted_reverse key l) = List.length l.
Proof. symmetry. apply Permutation_length, sorted_reverse_perm. Qed.

Lemma insert_desc_descending x l :
  descending key l -> descending key (insert_desc key x l).
Proof.
  unfold descending. induction l as [|y l IH]; simpl; intros Hs.
  - constructor; constructor.
  - destruct (Qlt_bool (key x) (key y)) eqn:E.
    + inversion Hs as [|? ? Hs' Hall]; subst. constructor; [auto|].
      apply Forall_forall. intros z Hz.
      apply (Permutation_in _ (Permutation_sym (insert_desc_perm x l))) in Hz.
      destruct Hz as [<-|Hz].
      * apply Qlt_bool_iff in E. now apply Qlt_le_weak.
      * rewrite Forall_forall in Hall. auto.
    + apply Qlt_bool_false_iff in E. constructor; [assumption|].
      constructor; [assumption|].
      inversion Hs as [|? ? _ Hall]; subst.
      eapply Forall_impl; [|exact Hall]. simpl. intros z Hz.
      now apply Qle_trans with (key y).
Qed.

Lemma sorted_reverse_descending l : descending key (sorted_reverse key l).
Proof.
  induction l as [|x l IH]; simpl.
  - constructor.
  - now apply insert_desc_descending.
Qed.

(** Stability: inserting [x] puts it in front of the entries whose key
    equals its own. *)
Lemma with_key_insert_desc q x l :
  with_key key q (insert_desc key x l) = with_key key q (x :: l).
Proof.
  unfold with_key. induction l as [|y l IH]; simpl; [reflexivity|].
  destruct (Qlt_bool (key x) (key y)) eqn:E; [|reflexivity].
  simpl. rewrite IH. simpl.
  destruct (Qeq_bool (key x) q) eqn:Ex; [|reflexivity].
  destruct (Qeq_bool (key y) q) eqn:Ey; [|reflexivity].
  apply Qeq_bool_iff in Ex, Ey. apply Qlt_bool_iff in E.
  rewrite Ex, Ey in E. exfalso. exact (Qlt_irrefl _ E).
Qed.

Lemma sorted_reverse_stable q l :
  with_key key q (sorted_reverse key l) = with_key key q l.
Proof.
  induction l as [|x l IH]; simpl; [reflexivity|].
  rewrite with_key_insert_desc. unfold with_key in *. simpl. now rewrite IH.
Qed.

(** Two entries with the same key come out in the order they went in. *)
Lemma sorted_reverse_ties x y l :
  before x y (sorted_reverse key l) -> key x == key y -> before x y l.
Proof.
  intros H E.
  apply (before_filter (fun a => Qeq_bool (key a) (key y))) in H.
  - fold (with_key key (key y) (sorted_reverse key l)) in H.
    rewrite sorted_reverse_stable in H. now apply before_filter_inv in H.
  - now apply Qeq_bool_iff.
  - now apply Qeq_bool_iff.
Qed.

Lemma descending_app_inv l r : descending key (l ++ r) -> descending key l.
Proof.
  unfold descending. induction l as [|x l IH]; simpl; intros H.
  - constructor.
  - inversion H as [|? ? Hs Hall]; subst. constructor; [auto|].
    apply Forall_app in Hall. tauto.
Qed.

End Sorting.

(** ** rapidfuzz's [extract] *)

Lemma enumerate_from_snd {A : Type} (i : nat) (l : list A) :
  map snd (enumerate_from i l) = l.
Proof.
  revert i. induction l as [|a l IH]; intros i; simpl; [reflexivity|].
  now rewrite IH.
Qed.

Lemma extract_In (scorer : Scorer) query choices limit cutoff r :
  In r (extract scorer query choices limit cutoff) ->
  In (fst (fst r)) choices /\
  match_score r = scorer query (fst (fst r)) /\
  cutoff <= match_score r.
Proof.
  unfold extract. intros H. apply firstn_In in H.
  apply sorted_reverse_In in H. apply filter_In in H as [H Hcut].
  apply in_map_iff in H as ([i c] & <- & H). simpl in *.
  apply Qle_bool_iff in Hcut. repeat split; [|assumption].
  rewrite <- (enumerate_from_snd 0 choices).
  now apply (in_map snd) in H.
Qed.

(** ** The lexical matcher is a max-reduction over its passes *)

Section MaxMerge.
Variable scorer : Scorer.
Variable notes : list string.

Lemma max_merge_app hits hits' c :
  max_merge (hits ++ hits') c = max_merge hits' (max_merge hits c).
Proof. apply fold_left_app. Qed.

Lemma substring_pass_max_merge word c :
  substring_pass word notes c = max_merge (substring_hits word notes) c.
Proof.
  unfold substring_pass, substring_hits, max_merge.
  revert c. induction notes as [|note ns IH]; intros c; simpl; [reflexivity|].
  fold (contains_either word note).
  destruct (contains_either word note); simpl; now rewrite IH.
Qed.

Lemma merge_matches_max_merge matches c :
  merge_matches matches c = max_merge (fuzzy_hits matches) c.
Proof.
  unfold merge_matches, fuzzy_hits, max_merge.
  revert c. induction matches as [|[[m s] i] ms IH]; intros c; simpl;
    [reflexivity|].
  now rewrite IH.
Qed.

Lemma word_pass_max_merge c word :
  word_pass scorer notes c word =
  if (String.length word <? 3)%nat then c
  else max_merge (token_hits scorer notes word) c.
Proof.
  unfold word_pass, token_hits. destruct (String.length word <? 3)%nat;
    [reflexivity|].
  now rewrite max_merge_app, merge_matches_max_merge, substring_pass_max_merge.
Qed.

Lemma words_max_merge words c :
  fold_left (word_pass scorer notes) words c =
  max_merge
    (flat_map (token_hits scorer notes)
       (filter (fun word => negb (String.length word <? 3)%nat) words)) c.
Proof.
  revert c. induction words as [|w ws IH]; intros c; simpl; [reflexivity|].
  rewrite IH, word_pass_max_merge.
  destruct (String.length w <? 3)%nat; simpl; [reflexivity|].
  now rewrite max_merge_app.
Qed.

Lemma fuzzy_candidates_max_merge query :
  fuzzy_candidates scorer query notes =
  max_merge (pass_scores scorer query notes) [].
Proof.
  unfold fuzzy_candidates, pass_scores, surviving_tokens.
  now rewrite max_merge_app, merge_matches_max_merge, words_max_merge.
Qed.

Lemma fuzzy_hits_positive matches t s cutoff :
  0 < cutoff ->
  (forall r, In r matches -> cutoff <= match_score r) ->
  In (t, s) (fuzzy_hits matches) -> 0 < s.
Proof.
  intros Hc Hall H. unfold fuzzy_hits in H.
  apply in_map_iff in H as (r & [= <- <-] & Hr).
  apply Hall in Hr. apply Qlt_shift_div_l; [reflexivity|].
  rewrite Qmult_0_l. now apply Qlt_le_trans with cutoff.
Qed.

Lemma pass_scores_positive query t s :
  In (t, s) (pass_scores scorer query notes) -> 0 < s.
Proof.
  unfold pass_scores. rewrite in_app_iff, in_flat_map.
  intros [(w & _ & H)|H].
  - unfold token_hits in H. apply in_app_iff in H as [H|H].
    + unfold substring_hits in H. apply in_map_iff in H as (n & [= _ <-] & _).
      reflexivity.
    + eapply (fuzzy_hits_positive _ _ _ 60); [reflexivity| |exact H].
      intros r Hr. now apply extract_In in Hr.
  - eapply (fuzzy_hits_positive _ _ _ 50); [reflexivity| |exact H].
    intros r Hr. now apply extract_In in Hr.
Qed.
End MaxMerge.

Lemma max_merge_snoc hits k x c :
  max_merge (hits ++ [(k, x)]) c =
  dict_set (max_merge hits c) k
    (py_max (dict_get_default (max_merge hits c) k 0) x).
Proof. unfold max_merge. now rewrite fold_left_app. Qed.

(** What a max-reduction from the empty mapping holds: unique keys, one key
    per term that was hit, and for each the greatest of its hits. *)
Lemma max_merge_spec (hits : list (string * Q)) :
  (forall t s, In (t, s) hits -> 0 < s) ->
  let d := max_merge hits [] in
  NoDup (keys d) /\
  (forall t, In t (keys d) <-> exists s, In (t, s) hits) /\
  (forall t v, dict_get d t = Some v ->
     In (t, v) hits /\ forall s, In (t, s) hits -> s <= v).
Proof.
  induction hits as [|[k x] hits IH] using rev_ind; intros Hpos; simpl.
  - split; [constructor|]. split.
    + intros t. split; [intros []|intros [s []]].
    + discriminate.
  - destruct IH as (Hnd & Hkeys & Hmax).
    { intros t s H. apply (Hpos t s). apply in_or_app. now left. }
    assert (Hx : 0 < x) by (apply (Hpos k), in_or_app; right; now left).
    rewrite max_merge_snoc. set (d := max_merge hits []) in *.
    split; [now apply NoDup_keys_dict_set|]. split.
    + intros t. rewrite In_keys_dict_set, Hkeys. split.
      * intros [->|[s Hs]]; [exists x|exists s]; apply in_or_app; simpl; auto.
      * intros [s Hs]. apply in_app_or in Hs as [Hs|[[= <- <-]|[]]]; eauto.
    + intros t v. destruct (String.eqb_spec k t) as [<-|Hne].
      * rewrite dict_get_set_same. intros [= <-].
        unfold dict_get_default. destruct (dict_get d k) as [old|] eqn:E.
        -- destruct (Hmax _ _ E) as [Hin Hge].
           destruct (py_max_cases old x) as [[-> Hle]|[-> Hlt]].
           ++ split; [apply in_or_app; now left|].
              intros s Hs. apply in_app_or in Hs as [Hs|[[= <-]|[]]]; auto.
           ++ split; [apply in_or_app; right; now left|].
              intros s Hs. apply in_app_or in Hs as [Hs|[[= <-]|[]]].
              ** apply Qlt_le_weak. apply Qle_lt_trans with old; auto.
              ** apply Qle_refl.
        -- rewrite (py_max_zero x Hx).
           split; [apply in_or_app; right; now left|].
           intros s Hs. apply in_app_or in Hs as [Hs|[[= <-]|[]]].
           ++ apply dict_get_None in E. exfalso. apply E, Hkeys. eauto.
           ++ apply Qle_refl.
      * rewrite dict_get_set_other by assumption. intros E.
        destruct (Hmax _ _ E) as [Hin Hge].
        split; [apply in_or_app; now left|].
        intros s Hs. apply in_app_or in Hs as [Hs|[[= <- <-]|[]]]; auto.
        congruence.
Qed.

(** ** The top of a descending list *)

Section TopTies.
Context {A : Type} (key : A -> Q).

Lemma with_key_none q (l : list A) :
  (forall x, In x l -> key x < q) -> with_key key q l = [].
Proof.
  unfold with_key. induction l as [|x l IH]; simpl; intros H; [reflexivity|].
  destruct (Qeq_bool (key x) q) eqn:E.
  - apply Qeq_bool_iff in E. specialize (H x (or_introl eq_refl)).
    rewrite E in H. exfalso. exact (Qlt_irrefl _ H).
  - apply IH. intros y Hy. apply H. now right.
Qed.

(** When no key exceeds [q], the entries with key [q] are the head of a
    descending list. *)
Lemma descending_top_prefix q (l : list A) :
  descending key l -> (forall x, In x l -> key x <= q) ->
  exists rest, l = (with_key key q l ++ rest)%list.
Proof.
  unfold descending. induction l as [|x l IH]; intros Hs Hle.
  - now exists [].
  - inversion Hs as [|? ? Hs' Hall]; subst.
    unfold with_key. simpl. destruct (Qeq_bool (key x) q) eqn:E.
    + destruct IH as [rest Hrest]; [assumption|intros; apply Hle; now right|].
      exists rest. simpl. now rewrite Hrest at 1.
    + exists (x :: l). fold (with_key key q l).
      rewrite with_key_none; [reflexivity|].
      intros y Hy. rewrite Forall_forall in Hall.
      apply Qle_lt_trans with (key x); [auto|].
      specialize (Hle x (or_introl eq_refl)).
      apply Qle_lteq in Hle as [Hlt|Heq]; [exact Hlt|].
      apply Qeq_bool_iff in Heq. congruence.
Qed.

Lemma py_take_top q limit (l : list A) (x : A) :
  (forall y, In y l -> key y <= q) ->
  In x l -> key x == q ->
  (Z.of_nat (List.length (with_key key q l)) <= limit)%Z ->
  In x (py_take limit (sorted_reverse key l)).
Proof.
  intros Hle Hin Hx Hlen.
  destruct (descending_top_prefix q (sorted_reverse key l)) as [rest E].
  - apply sorted_reverse_descending.
  - intros y Hy. apply Hle. now apply sorted_reverse_In in Hy.
  - rewrite sorted_reverse_stable in E.
    unfold py_take. destruct (limit <? 0)%Z eqn:El; [apply Z.ltb_lt in El; lia|].
    rewrite E, firstn_app. apply in_or_app. left.
    rewrite firstn_all2 by lia.
    unfold with_key. apply filter_In. split; [assumption|].
    now apply Qeq_bool_iff.
Qed.
End TopTies.

(** ** fuzzy_search *)

Section FuzzySearch.
Variable scorer : Scorer.
Variable query : string.
Variable notes : list string.

Let candidates := fuzzy_candidates scorer query notes.
Let hits := pass_scores scorer query notes.

Lemma fuzzy_candidates_spec :
  NoDup (keys candidates) /\
  (forall t, In t (keys candidates) <-> exists s, In (t, s) hits) /\
  (forall t v, dict_get candidates t = Some v ->
     In (t, v) hits /\ forall s, In (t, s) hits -> s <= v).
Proof.
  subst candidates hits. rewrite fuzzy_candidates_max_merge.
  apply max_merge_spec. intros t s. apply pass_scores_positive.
Qed.

Lemma fuzzy_candidates_NoDup : NoDup (keys candidates).
Proof. apply fuzzy_candidates_spec. Qed.

Lemma fuzzy_search_In limit t v :
  In (t, v) (fuzzy_search scorer query notes limit) ->
  dict_get candidates t = Some v.
Proof.
  unfold fuzzy_search. intros H. apply py_take_In in H.
  apply sorted_reverse_In in H.
  apply In_dict_get; [apply fuzzy_candidates_NoDup|assumption].
Qed.

Lemma fuzzy_search_NoDup limit :
  NoDup (keys (fuzzy_search scorer query notes limit)).
Proof.
  unfold fuzzy_search.
  destruct (py_take_prefix limit
              (sorted_reverse snd (fuzzy_candidates scorer query notes)))
    as [rest E].
  pose proof fuzzy_candidates_NoDup as Hnd. subst candidates.
  apply (Permutation_NoDup
           (Permutation_map fst (sorted_reverse_perm snd _))) in Hnd.
  rewrite E in Hnd. unfold keys. rewrite map_app in Hnd.
  now apply NoDup_app_remove_r in Hnd.
Qed.

Lemma pass_scores_in_notes t s : In (t, s) hits -> In t notes.
Proof.
  subst hits. unfold pass_scores. rewrite in_app_iff, in_flat_map.
  assert (Hfz : forall q n c,
            In (t, s) (fuzzy_hits (extract scorer q notes n c)) -> In t notes).
  { intros q n c H. unfold fuzzy_hits in H.
    apply in_map_iff in H as (r & [= <- _] & Hr). now apply extract_In in Hr. }
  intros [(w & _ & H)|H].
  - unfold token_hits in H. apply in_app_iff in H as [H|H].
    + unfold substring_hits in H. apply in_map_iff in H as (n & [= <- _] & H).
      now apply filter_In in H.
    + eapply Hfz; eassumption.
  - eapply Hfz; eassumption.
Qed.

Lemma fuzzy_candidates_in_notes t : In t (keys candidates) -> In t notes.
Proof.
  intros H. apply fuzzy_candidates_spec in H as [s Hs].
  now apply pass_scores_in_notes in Hs.
Qed.

Lemma substring_hit_in_pass_scores word note :
  In word (surviving_tokens query) -> In note notes ->
  contains_either word note = true ->
  In (note, 1) hits.
Proof.
  intros Hw Hn Hc. subst hits. unfold pass_scores.
  apply in_or_app. left. apply in_flat_map. exists word. split; [assumption|].
  unfold token_hits. apply in_or_app. left. unfold substring_hits.
  apply in_map_iff. exists note. split; [reflexivity|].
  apply filter_In. now split.
Qed.

Hypothesis scorer_range : forall a b, scorer a b <= 100.

Lemma pass_scores_le_1 t s : In (t, s) hits -> s <= 1.
Proof.
  subst hits. unfold pass_scores. rewrite in_app_iff, in_flat_map.
  assert (Hfz : forall ms, In (t, s) (fuzzy_hits ms) ->
            (forall r, In r ms -> match_score r <= 100) -> s <= 1).
  { intros ms H Hall. unfold fuzzy_hits in H.
    apply in_map_iff in H as (r & [= _ <-] & Hr). apply Hall in Hr.
    apply Qle_shift_div_r; [reflexivity|]. now rewrite Qmult_1_l. }
  assert (Hex : forall q n c r, In r (extract scorer q notes n c) ->
                                match_score r <= 100).
  { intros q n c r Hr. apply extract_In in Hr as (_ & -> & _).
    apply scorer_range. }
  intros [(w & _ & H)|H].
  - unfold token_hits in H. apply in_app_iff in H as [H|H].
    + unfold substring_hits in H. apply in_map_iff in H as (n & [= _ <-] & _).
      apply Qle_refl.
    + eapply Hfz; [exact H|]. apply Hex.
  - eapply Hfz; [exact H|]. apply Hex.
Qed.

Lemma fuzzy_candidates_le_1 t v : In (t, v) candidates -> v <= 1.
Proof.
  intros H. apply In_dict_get in H; [|apply fuzzy_candidates_NoDup].
  apply fuzzy_candidates_spec in H as [H _]. now apply pass_scores_le_1 in H.
Qed.
End FuzzySearch.

(** ** The stand-in scorer stays on the scale 0..100 *)

Lemma lcs_nil_r (a : string) : lcs a "" = 0%nat.
Proof. now destruct a. Qed.

Lemma lcs_cons (x y : ascii) (a b : string) :
  lcs (String x a) (String y b) =
  if Ascii.eqb x y then S (lcs a b)
  else Nat.max (lcs a (String y b)) (lcs (String x a) b).
Proof. reflexivity. Qed.

Lemma lcs_bound (a b : string) :
  (lcs a b <= String.length a /\ lcs a b <= String.length b)%nat.
Proof.
  revert b. induction a as [|x a IHa]; intros b; [simpl; lia|].
  induction b as [|y b IHb]; [rewrite lcs_nil_r; simpl; lia|].
  rewrite lcs_cons. destruct (Ascii.eqb x y).
  - specialize (IHa b). simpl. lia.
  - specialize (IHa (String y b)). simpl in *. lia.
Qed.

Lemma indel_ratio_range (a b : string) :
  0 <= indel_ratio a b /\ indel_ratio a b <= 100.
Proof.
  unfold indel_ratio. pose proof (lcs_bound a b) as [Ha Hb].
  destruct (String.length a + String.length b)%nat as [|n] eqn:E.
  - split; discriminate.
  - assert (Hden : Z.pos (Pos.of_nat (S n)) = Z.of_nat (S n))
      by now rewrite <- Pos.of_nat_succ, Zpos_P_of_succ_nat, Nat2Z.inj_succ.
    unfold Qle. cbn [Qnum Qden]. rewrite Hden. split; lia.
Qed.

Lemma fuzzy_candidates_length (scorer : Scorer) query notes :
  (List.length (fuzzy_candidates scorer query notes) <= List.length notes)%nat.
Proof.
  rewrite <- (length_map fst). apply NoDup_incl_length.
  - apply fuzzy_candidates_NoDup.
  - intros t. apply fuzzy_candidates_in_notes.
Qed.

Lemma with_key_length {A : Type} (key : A -> Q) q (l : list A) :
  (List.length (with_key key q l) <= List.length l)%nat.
Proof. apply filter_length_le. Qed.

(** ** C4: the lexical matcher keeps the maximum of a term's pass scores *)

(** C4. Max-merge within the lexical matcher: the score [fuzzy_search] returns
    for a term is the one held by the [candidates] mapping, it is one of the
    scores the passes (substring, per-token fuzzy, whole-query fuzzy) gave to
    that term, and no pass gave the term a greater one: it is their maximum,
    never their sum. *)
Theorem C4_fuzzy_search_keeps_the_maximum
    (scorer : Scorer) (query : string) (notes : list string) (limit : Z)
    (t : string) (v : Q) :
  In (t, v) (fuzzy_search scorer query notes limit) ->
  dict_get (fuzzy_candidates scorer query notes) t = Some v /\
  In (t, v) (pass_scores scorer query notes) /\
  forall s, In (t, s) (pass_scores scorer query notes) -> s <= v.
Proof.
  intros H. apply fuzzy_search_In in H. split; [assumption|].
  now apply fuzzy_candidates_spec.
Qed.

(** On the query "cherry berry" the term "berry" is hit three times (a fuzzy
    hit of "cherry", a substring hit of "berry", a whole-query hit) and is
    returned with the greatest of the scores, 1. *)
Lemma C4_fuzzy_search_keeps_the_maximum_witness :
  dict_get (fuzzy_candidates indel_ratio "cherry berry" ["berry"; "cherry"])
    "berry" = Some 1 /\
  In ("berry", 1) (pass_scores indel_ratio "cherry berry" ["berry"; "cherry"]) /\
  forall s,
    In ("berry", s) (pass_scores indel_ratio "cherry berry" ["berry"; "cherry"]) ->
    s <= 1.
Proof.
  apply (C4_fuzzy_search_keeps_the_maximum
           indel_ratio "cherry berry" ["berry"; "cherry"] 10 "berry" 1).
  vm_compute. right. left. reflexivity.
Defined.

(** ** C3: a substring match scores exactly 1.0 *)

(** C3. Substring-match guarantee, for a scorer on the scale 0..100: on the
    vocabulary ["berry"; "cherry"] and the query "berrylicious" the lexical
    matcher returns "berry" with score 1; and whenever a surviving token
    contains a vocabulary term or is contained in one (the term lowercased),
    the [candidates] mapping gives that term the score 1, and [fuzzy_search]
    returns it with that score as soon as [limit] covers the candidates that
    score 1. *)
Theorem C3_substring_match_scores_one
    (scorer : Scorer) (scorer_range : forall a b, scorer a b <= 100) :
  (exists v,
     In ("berry", v) (fuzzy_search scorer "berrylicious" ["berry"; "cherry"] 10)
     /\ v == 1) /\
  forall query notes word note,
    In word (surviving_tokens query) ->
    In note notes ->
    contains_either word note = true ->
    exists v,
      dict_get (fuzzy_candidates scorer query notes) note = Some v /\
      v == 1 /\
      forall limit,
        (Z.of_nat (List.length
                     (with_key snd 1 (fuzzy_candidates scorer query notes)))
         <= limit)%Z ->
        In (note, v) (fuzzy_search scorer query notes limit).
Proof.
  assert (General : forall query notes word note,
    In word (surviving_tokens query) ->
    In note notes ->
    contains_either word note = true ->
    exists v,
      dict_get (fuzzy_candidates scorer query notes) note = Some v /\
      v == 1 /\
      forall limit,
        (Z.of_nat (List.length
                     (with_key snd 1 (fuzzy_candidates scorer query notes)))
         <= limit)%Z ->
        In (note, v) (fuzzy_search scorer query notes limit)).
  { intros query notes word note Hw Hn Hc.
    pose proof (substring_hit_in_pass_scores scorer query notes word note Hw Hn Hc)
      as Hhit.
    destruct (fuzzy_candidates_spec scorer query notes) as (Hnd & Hkeys & Hmax).
    destruct (In_key_dict_get (fuzzy_candidates scorer query notes) note)
      as [v Hv].
    { apply Hkeys. now exists 1. }
    destruct (Hmax _ _ Hv) as [Hin Hge].
    assert (Hv1 : v == 1).
    { apply Qle_antisym; [|now apply Hge].
      now apply (pass_scores_le_1 scorer query notes scorer_range note). }
    exists v. split; [assumption|]. split; [assumption|].
    intros limit Hlimit. unfold fuzzy_search.
    apply (py_take_top snd 1); try assumption.
    - intros [t s] Hy. simpl.
      now apply (fuzzy_candidates_le_1 scorer query notes scorer_range t).
    - now apply dict_get_In. }
  split; [|exact General].
  destruct (General "berrylicious" ["berry"; "cherry"] "berrylicious" "berry")
    as (v & _ & Hv1 & Hin).
  - vm_compute. now left.
  - now left.
  - reflexivity.
  - exists v. split; [|assumption]. apply Hin.
    pose proof (with_key_length snd 1
                  (fuzzy_candidates scorer "berrylicious" ["berry"; "cherry"])).
    pose proof (fuzzy_candidates_length scorer "berrylicious" ["berry"; "cherry"]).
    simpl List.length in *. lia.
Qed.

Lemma C3_substring_match_scores_one_witness :
  (forall a b, indel_ratio a b <= 100) /\
  (exists v,
     In ("berry", v)
        (fuzzy_search indel_ratio "berrylicious" ["berry"; "cherry"] 10)
     /\ v == 1).
Proof.
  split.
  - intros a b. apply indel_ratio_range.
  - exact (proj1 (C3_substring_match_scores_one indel_ratio
                    (fun a b => proj2 (indel_ratio_range a b)))).
Defined.

Example fuzzy_search_berrylicious :
  fuzzy_search indel_ratio "berrylicious" berry_notes 10 = [("berry", 1)].
Proof. vm_compute. reflexivity. Qed.

(** ** vector_search *)

Lemma np_dot_Ok (u v : Vec) :
  List.length v = List.length u -> exists s, np_dot u v = Ok s.
Proof.
  revert v. induction u as [|a u IH]; intros [|b v] H; simpl in *;
    try discriminate; [now exists 0|].
  destruct (IH v) as [s Hs]; [congruence|]. rewrite Hs. simpl. eauto.
Qed.

Lemma np_dot_Ok_inv (u v : Vec) s :
  np_dot u v = Ok s -> List.length v = List.length u.
Proof.
  revert v s. induction u as [|a u IH]; intros [|b v] s H; simpl in *;
    try discriminate; [reflexivity|].
  destruct (np_dot u v) as [r|] eqn:E; [|discriminate].
  f_equal. eauto.
Qed.

Section VectorSearch.
Variable query_embedding : Vec.
Variable threshold : Q.

Lemma vector_candidates_Ok items acc res :
  vector_candidates query_embedding items threshold acc = Ok res ->
  res = (acc ++ kept_similarities query_embedding threshold items)%list /\
  same_dimension query_embedding items.
Proof.
  revert acc. induction items as [|[note emb] items IH]; intros acc; simpl.
  - intros [= <-]. rewrite app_nil_r. split; [reflexivity|constructor].
  - destruct (np_dot query_embedding emb) as [s|] eqn:E; simpl; [|discriminate].
    intros H. apply IH in H as [-> Hdim]. split.
    + destruct (Qle_bool threshold s); [|reflexivity].
      now rewrite <- app_assoc.
    + constructor; [|assumption]. simpl. now apply np_dot_Ok_inv in E.
Qed.

Lemma vector_candidates_total items acc :
  same_dimension query_embedding items ->
  vector_candidates query_embedding items threshold acc =
  Ok (acc ++ kept_similarities query_embedding threshold items)%list.
Proof.
  revert acc. induction items as [|[note emb] items IH]; intros acc Hdim; simpl.
  - now rewrite app_nil_r.
  - inversion Hdim as [|? ? Hd Hdim']; subst. simpl in Hd.
    destruct (np_dot_Ok query_embedding emb Hd) as [s Hs]. rewrite Hs. simpl.
    rewrite IH by assumption. destruct (Qle_bool threshold s); [|reflexivity].
    now rewrite <- app_assoc.
Qed.

Lemma kept_similarities_In items note s :
  In (note, s) (kept_similarities query_embedding threshold items) <->
  exists emb, In (note, emb) items /\ np_dot query_embedding emb = Ok s
              /\ threshold <= s.
Proof.
  unfold kept_similarities. rewrite in_flat_map. split.
  - intros ([n emb] & Hin & H). simpl in H.
    destruct (np_dot query_embedding emb) as [r|] eqn:E; [|contradiction].
    destruct (Qle_bool threshold r) eqn:El; [|contradiction].
    destruct H as [[= <- <-]|[]]. exists emb.
    apply Qle_bool_iff in El. auto.
  - intros (emb & Hin & Hdot & Hle). exists (note, emb). split; [assumption|].
    simpl. rewrite Hdot. apply Qle_bool_iff in Hle. rewrite Hle. now left.
Qed.

Lemma kept_similarities_keys items note :
  In note (keys (kept_similarities query_embedding threshold items)) ->
  In note (keys items).
Proof.
  unfold keys. rewrite !in_map_iff. intros ([n s] & <- & H).
  apply kept_similarities_In in H as (emb & H & _).
  now exists (n, emb).
Qed.

Lemma kept_similarities_NoDup items :
  NoDup (keys items) ->
  NoDup (keys (kept_similarities query_embedding threshold items)).
Proof.
  induction items as [|[note emb] items IH]; simpl; intros Hnd;
    [constructor|].
  inversion Hnd as [|? ? Hnotin Hnd']; subst.
  destruct (np_dot query_embedding emb) as [r|]; simpl; [|auto].
  destruct (Qle_bool threshold r); simpl; [|auto].
  constructor; [|auto]. intros H. apply Hnotin.
  now apply kept_similarities_keys.
Qed.

End VectorSearch.

Lemma vector_search_Ok (model : Model) query note_embeddings limit threshold res :
  vector_search model query note_embeddings limit threshold = Ok res ->
  same_dimension (model ("query: " ++ query)) note_embeddings /\
  res = py_take limit
          (sorted_reverse snd
             (kept_similarities (model ("query: " ++ query)) threshold
                note_embeddings)).
Proof.
  unfold vector_search.
  destruct (vector_candidates _ note_embeddings threshold []) as [c|] eqn:E;
    simpl; [|discriminate].
  intros [= <-]. apply vector_candidates_Ok in E as [-> Hdim]. now split.
Qed.

Lemma vector_search_total (model : Model) query note_embeddings limit threshold :
  same_dimension (model ("query: " ++ query)) note_embeddings ->
  vector_search model query note_embeddings limit threshold =
  Ok (py_take limit
        (sorted_reverse snd
           (kept_similarities (model ("query: " ++ query)) threshold
              note_embeddings))).
Proof.
  intros Hdim. unfold vector_search.
  now rewrite vector_candidates_total.
Qed.

Lemma NoDup_keys_sorted_take {V : Type} (key : string * V -> Q) limit
    (d : dict V) :
  NoDup (keys d) -> NoDup (keys (py_take limit (sorted_reverse key d))).
Proof.
  intros Hnd. destruct (py_take_prefix limit (sorted_reverse key d)) as [rest E].
  apply (Permutation_NoDup (Permutation_map fst (sorted_reverse_perm key d)))
    in Hnd.
  rewrite E in Hnd. unfold keys. rewrite map_app in Hnd.
  now apply NoDup_app_remove_r in Hnd.
Qed.

Lemma vector_search_NoDup (model : Model) query note_embeddings limit threshold res :
  NoDup (keys note_embeddings) ->
  vector_search model query note_embeddings limit threshold = Ok res ->
  NoDup (keys res).
Proof.
  intros Hnd H. apply vector_search_Ok in H as [_ ->].
  apply NoDup_keys_sorted_take. now apply kept_similarities_NoDup.
Qed.

(** ** C5: the threshold is inclusive *)

(** C5. Threshold boundary of the semantic matcher: when [vector_search]
    returns, its candidate list (the [similarities] of the source, before the
    sort and the cut to [limit]) holds a stored embedding exactly when its
    similarity with the query embedding is at least the threshold.  So an
    embedding whose similarity equals the threshold is a candidate, and is
    returned when [limit] covers the candidates; one strictly below the
    threshold is neither a candidate nor returned. *)
Theorem C5_threshold_is_inclusive
    (model : Model) (query : string) (note_embeddings : dict Vec) (limit : Z)
    (threshold : Q) (res : list (string * Q))
    (note : string) (embedding : Vec) (similarity : Q) :
  NoDup (keys note_embeddings) ->
  vector_search model query note_embeddings limit threshold = Ok res ->
  In (note, embedding) note_embeddings ->
  np_dot (model ("query: " ++ query)) embedding = Ok similarity ->
  exists candidates,
    vector_candidates (model ("query: " ++ query)) note_embeddings threshold []
      = Ok candidates /\
    (similarity == threshold ->
       In (note, similarity) candidates /\
       ((Z.of_nat (List.length candidates) <= limit)%Z ->
        In (note, similarity) res)) /\
    (similarity < threshold ->
       ~ In note (keys candidates) /\ ~ In note (keys res)).
Proof.
  intros Hnd Hres Hin Hdot.
  apply vector_search_Ok in Hres as [Hdim ->].
  set (qe := model ("query: " ++ query)) in *.
  exists (kept_similarities qe threshold note_embeddings).
  split; [now rewrite vector_candidates_total|]. split.
  - intros Heq.
    assert (Hc : In (note, similarity)
                   (kept_similarities qe threshold note_embeddings)).
    { apply kept_similarities_In. exists embedding.
      repeat split; try assumption. rewrite Heq. apply Qle_refl. }
    split; [assumption|]. intros Hlimit.
    rewrite py_take_all by now rewrite sorted_reverse_length.
    now apply sorted_reverse_In.
  - intros Hlt.
    assert (Hc : ~ In note (keys (kept_similarities qe threshold note_embeddings))).
    { unfold keys. rewrite in_map_iff. intros ([n s] & <- & H). simpl in *.
      apply kept_similarities_In in H as (emb & Hin' & Hdot' & Hle).
      assert (emb = embedding).
      { apply In_dict_get in Hin, Hin'; try assumption. congruence. }
      subst emb. rewrite Hdot in Hdot'. injection Hdot' as <-.
      exact (Qlt_not_le _ _ Hlt Hle). }
    split; [assumption|]. intros H. apply Hc.
    unfold keys in *. apply in_map_iff in H as (x & <- & H).
    apply py_take_In in H. apply sorted_reverse_In in H. now apply in_map.
Qed.

(** With the threshold 3/5, "peach" at (3/5, 4/5) sits exactly on the
    threshold (its similarity is 15/25) and is returned. *)
Lemma C5_threshold_is_inclusive_witness :
  exists candidates,
    vector_candidates [1; 0] example_embeddings (3 # 5) [] = Ok candidates /\
    (15 # 25 == 3 # 5 ->
       In ("peach", 15 # 25) candidates /\
       ((Z.of_nat (List.length candidates) <= 10)%Z ->
        In ("peach", 15 # 25) [("plum", 1); ("peach", 15 # 25)])) /\
    (15 # 25 < 3 # 5 ->
       ~ In "peach" (keys candidates) /\
       ~ In "peach" (keys [("plum", 1); ("peach", 15 # 25)])).
Proof.
  apply (C5_threshold_is_inclusive example_model "stone fruit"
           example_embeddings 10 (3 # 5) [("plum", 1); ("peach", 15 # 25)]
           "peach" [3 # 5; 4 # 5] (15 # 25)).
  - unfold keys; simpl. repeat constructor; simpl; intuition discriminate.
  - reflexivity.
  - right. now left.
  - reflexivity.
Defined.

(** ** The fusion step *)

Section Accumulate.
Variable weigh : Q -> Q.

Lemma accumulate_NoDup results combined :
  NoDup (keys combined) -> NoDup (keys (accumulate weigh results combined)).
Proof.
  unfold accumulate. revert combined.
  induction results as [|[k s] results IH]; intros c Hnd; simpl;
    [assumption|].
  apply IH. now apply NoDup_keys_dict_set.
Qed.

Lemma accumulate_get results combined t :
  NoDup (keys results) ->
  dict_get (accumulate weigh results combined) t =
  match dict_get results t with
  | Some s => Some (dict_get_default combined t 0 + weigh s)
  | None => dict_get combined t
  end.
Proof.
  unfold accumulate. revert combined.
  induction results as [|[k s] results IH]; intros c Hnd; simpl;
    [reflexivity|].
  inversion Hnd as [|? ? Hnotin Hnd']; subst.
  rewrite IH by assumption. destruct (String.eqb_spec k t) as [<-|Hne].
  - apply dict_get_None in Hnotin. rewrite Hnotin.
    apply dict_get_set_same.
  - unfold dict_get_default. rewrite dict_get_set_other by assumption.
    reflexivity.
Qed.

Lemma has_key_dict_set {V : Type} (d : dict V) k t v :
  has_key (dict_set d k v) t = (String.eqb k t || has_key d t).
Proof.
  unfold has_key. destruct (String.eqb_spec k t) as [<-|Hne].
  - now rewrite dict_get_set_same.
  - now rewrite dict_get_set_other.
Qed.

Lemma accumulate_keys results combined :
  NoDup (keys results) ->
  keys (accumulate weigh results combined) =
  (keys combined
   ++ filter (fun k => negb (has_key combined k)) (keys results))%list.
Proof.
  unfold accumulate. revert combined.
  induction results as [|[k s] results IH]; intros c Hnd; simpl.
  - now rewrite app_nil_r.
  - inversion Hnd as [|? ? Hnotin Hnd']; subst.
    rewrite IH by assumption. rewrite keys_dict_set.
    assert (Hext :
      filter (fun k0 => negb (has_key (dict_set c k
                 (dict_get_default c k 0 + weigh s)) k0)) (keys results) =
      filter (fun k0 => negb (has_key c k0)) (keys results)).
    { apply filter_ext_in. intros k0 Hk0. rewrite has_key_dict_set.
      destruct (String.eqb_spec k k0) as [->|Hne]; [contradiction|reflexivity]. }
    rewrite Hext. unfold has_key at 2. destruct (dict_get c k); simpl.
    + reflexivity.
    + now rewrite <- app_assoc.
Qed.
End Accumulate.

Lemma add_fuzzy_results_accumulate fuzzy_results combined :
  add_fuzzy_results fuzzy_results combined =
  accumulate lexical_weight fuzzy_results combined.
Proof.
  unfold add_fuzzy_results, accumulate. revert combined.
  induction fuzzy_results as [|[k s] l IH]; intros c; simpl; [reflexivity|].
  now rewrite IH.
Qed.

Lemma py_div_Ok a b : ~ b == 0 -> py_div a b = Ok (a / b).
Proof.
  intros H. unfold py_div. destruct (Qeq_bool b 0) eqn:E; [|reflexivity].
  apply Qeq_bool_iff in E. contradiction.
Qed.

Lemma py_div_Ok_inv a b r : py_div a b = Ok r -> ~ b == 0 /\ r = a / b.
Proof.
  unfold py_div. destruct (Qeq_bool b 0) eqn:E; [discriminate|].
  intros [= <-]. split; [|reflexivity]. intros H.
  apply Qeq_bool_iff in H. congruence.
Qed.

Lemma add_vector_results_Ok vector_threshold vector_results combined d :
  add_vector_results vector_threshold vector_results combined = Ok d ->
  d = accumulate (vector_weight vector_threshold) vector_results combined /\
  (vector_results = [] \/ ~ 1 - vector_threshold == 0).
Proof.
  unfold accumulate. revert combined.
  induction vector_results as [|[k s] l IH]; intros c; simpl.
  - intros [= <-]. auto.
  - destruct (py_div (s - vector_threshold) (1 - vector_threshold)) as [n|] eqn:E;
      simpl; [|discriminate].
    apply py_div_Ok_inv in E as [Hnz ->]. intros H. apply IH in H as [-> _].
    split; [reflexivity|now right].
Qed.

Lemma add_vector_results_total vector_threshold vector_results combined :
  ~ 1 - vector_threshold == 0 ->
  add_vector_results vector_threshold vector_results combined =
  Ok (accumulate (vector_weight vector_threshold) vector_results combined).
Proof.
  intros Hnz. unfold accumulate. revert combined.
  induction vector_results as [|[k s] l IH]; intros c; simpl; [reflexivity|].
  rewrite py_div_Ok by assumption. simpl. now rewrite IH.
Qed.

Lemma hybrid_combined_Ok scorer model query notes note_embeddings
    vector_threshold combined :
  hybrid_combined scorer model query notes note_embeddings vector_threshold
    = Ok combined ->
  exists vector_results,
    vector_search model query note_embeddings 20 vector_threshold
      = Ok vector_results /\
    combined =
      accumulate (vector_weight vector_threshold) vector_results
        (accumulate lexical_weight (fuzzy_search scorer query notes 20) []) /\
    (vector_results = [] \/ ~ 1 - vector_threshold == 0).
Proof.
  unfold hybrid_combined.
  destruct (vector_search model query note_embeddings 20 vector_threshold)
    as [vr|] eqn:E; simpl; [|discriminate].
  intros H. apply add_vector_results_Ok in H as [-> Hnz].
  exists vr. now rewrite add_fuzzy_results_accumulate.
Qed.

Lemma hybrid_search_Ok scorer model query notes note_embeddings limit
    vector_threshold res :
  hybrid_search scorer model query notes note_embeddings limit vector_threshold
    = Ok res ->
  exists combined,
    hybrid_combined scorer model query notes note_embeddings vector_threshold
      = Ok combined /\
    res = py_take limit (sorted_reverse snd combined).
Proof.
  unfold hybrid_search.
  destruct (hybrid_combined scorer model query notes note_embeddings
              vector_threshold) as [c|]; simpl; [|discriminate].
  intros [= <-]. now exists c.
Qed.

Lemma hybrid_combined_NoDup scorer model query notes note_embeddings
    vector_threshold combined :
  hybrid_combined scorer model query notes note_embeddings vector_threshold
    = Ok combined ->
  NoDup (keys combined).
Proof.
  intros H. apply hybrid_combined_Ok in H as (vr & _ & -> & _).
  apply accumulate_NoDup, accumulate_NoDup. constructor.
Qed.

(** ** C1: fusion adds the two weighted contributions *)

(** C1. Additivity of fusion: when [hybrid_search] returns, a term that is in
    the lexical top 20 with score [ls] and in the semantic top 20 with
    similarity [vs] is held by the combined mapping with the score
    [ls * 0.4 + normalized * 0.6], where
    [normalized = (vs - threshold) / (1 - threshold)]; the equality is exact,
    hence within 1e-6, and any entry of the returned list for that term
    carries that score. *)
Theorem C1_fusion_is_additive
    (scorer : Scorer) (model : Model) (query : string) (notes : list string)
    (note_embeddings : dict Vec) (limit : Z) (vector_threshold : Q)
    (res vector_results : list (string * Q)) (t : string) (ls vs : Q) :
  NoDup (keys note_embeddings) ->
  hybrid_search scorer model query notes note_embeddings limit vector_threshold
    = Ok res ->
  In (t, ls) (fuzzy_search scorer query notes 20) ->
  vector_search model query note_embeddings 20 vector_threshold
    = Ok vector_results ->
  In (t, vs) vector_results ->
  let normalized := (vs - vector_threshold) / (1 - vector_threshold) in
  let expected := ls * (2 # 5) + normalized * (3 # 5) in
  (exists combined fused,
     hybrid_combined scorer model query notes note_embeddings vector_threshold
       = Ok combined /\
     dict_get combined t = Some fused /\
     fused == expected /\
     Qabs (fused - expected) <= 1 # 1000000) /\
  (forall fused, In (t, fused) res -> fused == expected).
Proof.
  intros Hnd Hres Hfz Hvs Hin normalized expected.
  apply hybrid_search_Ok in Hres as (combined & Hc & ->).
  pose proof (hybrid_combined_NoDup _ _ _ _ _ _ _ Hc) as Hndc.
  pose proof Hc as Hc'.
  apply hybrid_combined_Ok in Hc' as (vr & Hvr & Hcomb & _).
  rewrite Hvs in Hvr. injection Hvr as <-.
  assert (Hget : dict_get combined t =
                 Some (0 + lexical_weight ls + vector_weight vector_threshold vs)).
  { rewrite Hcomb.
    rewrite accumulate_get by (eapply vector_search_NoDup; eassumption).
    rewrite (In_dict_get vector_results t vs)
      by (try assumption; eapply vector_search_NoDup; eassumption).
    unfold dict_get_default.
    rewrite accumulate_get by apply fuzzy_search_NoDup.
    rewrite (In_dict_get _ t ls) by (try assumption; apply fuzzy_search_NoDup).
    reflexivity. }
  assert (Heq : 0 + lexical_weight ls + vector_weight vector_threshold vs
                == expected).
  { subst expected normalized. unfold lexical_weight, vector_weight, normalize.
    now rewrite Qplus_0_l. }
  split.
  - exists combined, (0 + lexical_weight ls + vector_weight vector_threshold vs).
    repeat split; try assumption.
    rewrite Heq. setoid_replace (expected - expected) with 0 by ring.
    discriminate.
  - intros fused H. apply py_take_In in H. apply sorted_reverse_In in H.
    apply In_dict_get in H; [|assumption]. rewrite Hget in H.
    injection H as <-. exact Heq.
Qed.

(** On the query "plums" with threshold 1/2, "plum" is a lexical hit with
    score 1 and a semantic hit with similarity 1: it is fused to
    1 * 0.4 + 1 * 0.6. *)
Lemma C1_fusion_is_additive_witness :
  let normalized := (1 - (1 # 2)) / (1 - (1 # 2)) in
  let expected := 1 * (2 # 5) + normalized * (3 # 5) in
  (exists combined fused,
     hybrid_combined indel_ratio example_model "plums" example_notes
       example_embeddings (1 # 2) = Ok combined /\
     dict_get combined "plum" = Some fused /\
     fused == expected /\
     Qabs (fused - expected) <= 1 # 1000000) /\
  (forall fused,
     In ("plum", fused) [("plum", 50 # 50); ("peach", 30 # 250)] ->
     fused == expected).
Proof.
  apply (C1_fusion_is_additive indel_ratio example_model "plums" example_notes
           example_embeddings 10 (1 # 2)
           [("plum", 50 # 50); ("peach", 30 # 250)]
           [("plum", 1); ("peach", 15 # 25)] "plum" 1 1).
  - unfold keys; simpl. repeat constructor; simpl; intuition discriminate.
  - vm_compute. reflexivity.
  - vm_compute. now left.
  - vm_compute. reflexivity.
  - now left.
Defined.

(** ** C2: the fused output is descending, ties in discovery order *)

Lemma before_map {A B : Type} (f : A -> B) (x y : A) (l : list A) :
  before x y l -> before (f x) (f y) (map f l).
Proof.
  intros (l1 & l2 & l3 & ->). exists (map f l1), (map f l2), (map f l3).
  now rewrite map_app, map_cons, map_app, map_cons.
Qed.

Lemma descending_py_take {A : Type} (key : A -> Q) limit (l : list A) :
  descending key l -> descending key (py_take limit l).
Proof.
  intros H. destruct (py_take_prefix limit l) as [rest E]. rewrite E in H.
  now apply descending_app_inv in H.
Qed.

Lemma before_py_take {A : Type} limit (x y : A) (l : list A) :
  before x y (py_take limit l) -> before x y l.
Proof.
  intros H. destruct (py_take_prefix limit l) as [rest E]. rewrite E.
  now apply before_app_l.
Qed.

Lemma has_key_accumulate weigh results k :
  NoDup (keys results) ->
  has_key (accumulate weigh results []) k = has_key results k.
Proof.
  intros Hnd. unfold has_key. rewrite accumulate_get by assumption.
  now destruct (dict_get results k).
Qed.

Lemma hybrid_combined_keys scorer model query notes note_embeddings
    vector_threshold combined vector_results :
  NoDup (keys note_embeddings) ->
  hybrid_combined scorer model query notes note_embeddings vector_threshold
    = Ok combined ->
  vector_search model query note_embeddings 20 vector_threshold
    = Ok vector_results ->
  keys combined =
  discovery_order (fuzzy_search scorer query notes 20) vector_results.
Proof.
  intros Hnd Hc Hvs. apply hybrid_combined_Ok in Hc as (vr & Hvr & -> & _).
  rewrite Hvs in Hvr. injection Hvr as <-.
  pose proof (fuzzy_search_NoDup scorer query notes 20) as Hfz.
  rewrite accumulate_keys by (eapply vector_search_NoDup; eassumption).
  rewrite accumulate_keys by assumption. simpl.
  unfold discovery_order. f_equal.
  - apply forallb_filter_id. apply forallb_forall. reflexivity.
  - apply filter_ext. intros k. now rewrite has_key_accumulate.
Qed.

(** C2 (amended). Ordering of the fused output: when [hybrid_search] returns,
    the list is descending by final score, and two entries with equal final
    scores stand in the order in which their terms entered the combined
    mapping: the lexical results in their ranked order first, then the
    semantic results that were not lexical results, in their ranked order.
    That order is not the order of the vocabulary. *)
Theorem C2_ties_follow_discovery_order
    (scorer : Scorer) (model : Model) (query : string) (notes : list string)
    (note_embeddings : dict Vec) (limit : Z) (vector_threshold : Q)
    (res : list (string * Q)) :
  NoDup (keys note_embeddings) ->
  hybrid_search scorer model query notes note_embeddings limit vector_threshold
    = Ok res ->
  descending snd res /\
  exists vector_results,
    vector_search model query note_embeddings 20 vector_threshold
      = Ok vector_results /\
    forall x y,
      before x y res -> snd x == snd y ->
      before (fst x) (fst y)
        (discovery_order (fuzzy_search scorer query notes 20) vector_results).
Proof.
  intros Hnd Hres. apply hybrid_search_Ok in Hres as (combined & Hc & ->).
  split.
  - apply descending_py_take, sorted_reverse_descending.
  - pose proof Hc as Hc'. apply hybrid_combined_Ok in Hc' as (vr & Hvr & _).
    exists vr. split; [assumption|]. intros x y Hb Heq.
    rewrite <- (hybrid_combined_keys _ _ _ _ _ _ _ _ Hnd Hc Hvr).
    apply before_map. apply before_py_take in Hb.
    now apply sorted_reverse_ties in Hb.
Qed.

(** On "cherry berry" both terms are fused to 0.4; "cherry" entered the
    mapping first and stays first. *)
Lemma C2_ties_follow_discovery_order_witness :
  descending snd [("cherry", 2 # 5); ("berry", 2 # 5)] /\
  exists vector_results,
    vector_search example_model "cherry berry" berry_embeddings 20 (3 # 4)
      = Ok vector_results /\
    forall x y,
      before x y [("cherry", 2 # 5); ("berry", 2 # 5)] -> snd x == snd y ->
      before (fst x) (fst y)
        (discovery_order (fuzzy_search indel_ratio "cherry berry" berry_notes 20)
           vector_results).
Proof.
  apply (C2_ties_follow_discovery_order indel_ratio example_model
           "cherry berry" berry_notes berry_embeddings 10 (3 # 4)).
  - unfold keys; simpl. repeat constructor; simpl; intuition discriminate.
  - vm_compute. reflexivity.
Defined.

(** The claim as the spec states it fails: with the vocabulary in the order
    "berry", "cherry", the query "cherry berry" returns the two terms with
    equal scores and "cherry" first. *)
Lemma C2_counterexample :
  hybrid_search indel_ratio example_model "cherry berry" berry_notes
    berry_embeddings 10 (3 # 4)
  = Ok [("cherry", 2 # 5); ("berry", 2 # 5)] /\
  ~ ties_in_vocabulary_order berry_notes [("cherry", 2 # 5); ("berry", 2 # 5)].
Proof.
  split; [vm_compute; reflexivity|]. intros H.
  specialize (H ("cherry", 2 # 5) ("berry", 2 # 5)). simpl in H.
  assert (Hb : before "cherry" "berry" berry_notes).
  { apply H; [|reflexivity]. now exists [], [], []. }
  apply before_cons_inv in Hb as [[Hb _]|Hb]; [discriminate|].
  apply before_cons_inv in Hb as [[_ []]|Hb].
  apply before_In in Hb as [[] _].
Qed.

(** The lexical matcher alone breaks the tie the same way. *)
Example fuzzy_search_cherry_berry :
  fuzzy_search indel_ratio "cherry berry" berry_notes 10
  = [("cherry", 1); ("berry", 1)].
Proof. vm_compute. reflexivity. Qed.

(** ** C10: a semantic-only match on the threshold is kept with score 0 *)

Lemma semantic_only_at_threshold
    scorer model query notes note_embeddings vector_threshold
    combined vector_results t s :
  NoDup (keys note_embeddings) ->
  hybrid_combined scorer model query notes note_embeddings vector_threshold
    = Ok combined ->
  vector_search model query note_embeddings 20 vector_threshold
    = Ok vector_results ->
  In (t, s) vector_results ->
  ~ In t (keys (fuzzy_search scorer query notes 20)) ->
  s == vector_threshold ->
  exists fused, dict_get combined t = Some fused /\ fused == 0.
Proof.
  intros Hnd Hc Hvs Hin Hnot Heq.
  apply hybrid_combined_Ok in Hc as (vr & Hvr & -> & _).
  rewrite Hvs in Hvr. injection Hvr as <-.
  pose proof (vector_search_NoDup _ _ _ _ _ _ Hnd Hvs) as Hndv.
  rewrite accumulate_get by assumption.
  rewrite (In_dict_get vector_results t s) by assumption.
  unfold dict_get_default.
  rewrite accumulate_get by apply fuzzy_search_NoDup.
  apply dict_get_None in Hnot. rewrite Hnot. simpl.
  eexists. split; [reflexivity|].
  unfold vector_weight, normalize. rewrite Heq.
  setoid_replace (vector_threshold - vector_threshold) with 0 by ring.
  unfold Qdiv. ring.
Qed.

(** C10. Zero-score inclusion at the threshold boundary: a term found only by
    the semantic matcher, with similarity equal to the threshold, is held by
    the combined mapping with the fused score 0 and so is returned when
    [limit] covers the mapping; and there are such inputs: on the query "xyz"
    with threshold 3/5 the lexical matcher finds nothing, "peach" has
    similarity 15/25 = 3/5, and [hybrid_search] returns it last with score
    0. *)
Theorem C10_zero_score_inclusion :
  (forall scorer model query notes note_embeddings limit vector_threshold
          res vector_results t s,
     NoDup (keys note_embeddings) ->
     hybrid_search scorer model query notes note_embeddings limit
       vector_threshold = Ok res ->
     vector_search model query note_embeddings 20 vector_threshold
       = Ok vector_results ->
     In (t, s) vector_results ->
     ~ In t (keys (fuzzy_search scorer query notes 20)) ->
     s == vector_threshold ->
     exists combined fused,
       hybrid_combined scorer model query notes note_embeddings
         vector_threshold = Ok combined /\
       dict_get combined t = Some fused /\ fused == 0 /\
       ((Z.of_nat (List.length combined) <= limit)%Z -> In (t, fused) res)) /\
  (fuzzy_search indel_ratio "xyz" example_notes 20 = [] /\
   vector_search example_model "xyz" example_embeddings 20 (3 # 5)
     = Ok [("plum", 1); ("peach", 15 # 25)] /\
   15 # 25 == 3 # 5 /\
   exists fused,
     hybrid_search indel_ratio example_model "xyz" example_notes
       example_embeddings 10 (3 # 5)
     = Ok [("plum", 30 # 50); ("peach", fused)] /\
     fused == 0).
Proof.
  split.
  - intros scorer model query notes note_embeddings limit vector_threshold
           res vector_results t s Hnd Hres Hvs Hin Hnot Heq.
    apply hybrid_search_Ok in Hres as (combined & Hc & ->).
    destruct (semantic_only_at_threshold _ _ _ _ _ _ _ _ _ _
                Hnd Hc Hvs Hin Hnot Heq) as (fused & Hget & Hz).
    exists combined, fused. repeat split; try assumption.
    intros Hlimit. rewrite py_take_all by now rewrite sorted_reverse_length.
    apply sorted_reverse_In. now apply dict_get_In.
  - split; [vm_compute; reflexivity|].
    split; [vm_compute; reflexivity|].
    split; [reflexivity|].
    exists (0 # 1250). split; [vm_compute; reflexivity|reflexivity].
Qed.

(** ** C6: totality and the degenerate inputs *)

Lemma no_entry_nil {A : Type} (l : list A) : (forall x, ~ In x l) -> l = [].
Proof.
  destruct l as [|a l]; [reflexivity|]. intros H. exfalso.
  apply (H a). now left.
Qed.

Lemma fuzzy_search_empty_vocabulary scorer query limit :
  fuzzy_search scorer query [] limit = [].
Proof.
  unfold fuzzy_search.
  pose proof (fuzzy_candidates_length scorer query []) as H. simpl in H.
  destruct (fuzzy_candidates scorer query []); [|simpl in H; lia].
  apply py_take_nil.
Qed.

Lemma extract_below_cutoff (scorer : Scorer) query choices limit cutoff :
  (forall c, In c choices -> scorer query c < cutoff) ->
  extract scorer query choices limit cutoff = [].
Proof.
  intros H. apply no_entry_nil. intros r Hr.
  apply extract_In in Hr as (Hin & Hs & Hle). rewrite Hs in Hle.
  exact (Qlt_not_le _ _ (H _ Hin) Hle).
Qed.

Lemma fuzzy_search_empty_query scorer notes limit :
  (forall note, In note notes -> scorer "" note < 50) ->
  fuzzy_search scorer "" notes limit = [].
Proof.
  intros H. unfold fuzzy_search, fuzzy_candidates. simpl.
  rewrite extract_below_cutoff by assumption. apply py_take_nil.
Qed.

Lemma vector_search_empty_mapping model query limit threshold :
  vector_search model query [] limit threshold = Ok [].
Proof. unfold vector_search. simpl. now rewrite py_take_nil. Qed.

Lemma hybrid_search_total scorer model query notes note_embeddings limit
    vector_threshold :
  same_dimension (model ("query: " ++ query)) note_embeddings ->
  ~ vector_threshold == 1 ->
  exists res,
    hybrid_search scorer model query notes note_embeddings limit
      vector_threshold = Ok res.
Proof.
  intros Hdim Hth. unfold hybrid_search, hybrid_combined.
  rewrite vector_search_total by assumption. simpl.
  rewrite add_vector_results_total.
  - simpl. eauto.
  - intros H. apply Hth. rewrite <- (Qplus_0_l vector_threshold), <- H. ring.
Qed.

(** C6 (amended). Totality on degenerate inputs: [fuzzy_search] always
    returns, and returns the empty list for an empty vocabulary, and for an
    empty query when no term scores 50 or more against it; [vector_search]
    returns whenever the stored embeddings have the dimension of the query
    embedding, and returns the empty list for an empty embedding mapping;
    [hybrid_search] returns whenever moreover the threshold is not 1, and
    returns the empty list when the vocabulary and the embedding mapping are
    both empty.  An empty query alone does not empty the semantic or the
    hybrid result. *)
Theorem C6_totality_on_degenerate_inputs
    (scorer : Scorer) (model : Model) (query : string) (notes : list string)
    (note_embeddings : dict Vec) (limit : Z) (vector_threshold : Q) :
  fuzzy_search scorer query [] limit = [] /\
  ((forall note, In note notes -> scorer "" note < 50) ->
   fuzzy_search scorer "" notes limit = []) /\
  vector_search model query [] limit vector_threshold = Ok [] /\
  hybrid_search scorer model query [] [] limit vector_threshold = Ok [] /\
  (same_dimension (model ("query: " ++ query)) note_embeddings ->
   exists res,
     vector_search model query note_embeddings limit vector_threshold = Ok res) /\
  (same_dimension (model ("query: " ++ query)) note_embeddings ->
   ~ vector_threshold == 1 ->
   exists res,
     hybrid_search scorer model query notes note_embeddings limit
       vector_threshold = Ok res).
Proof.
  split; [apply fuzzy_search_empty_vocabulary|].
  split; [apply fuzzy_search_empty_query|].
  split; [apply vector_search_empty_mapping|].
  split.
  - unfold hybrid_search, hybrid_combined.
    rewrite vector_search_empty_mapping, fuzzy_search_empty_vocabulary. simpl.
    now rewrite py_take_nil.
  - split.
    + intros Hdim. rewrite vector_search_total by assumption. eauto.
    + apply hybrid_search_total.
Qed.

(** The claim as the spec states it fails: the empty query is embedded like
    any other text, and the semantic and hybrid matchers return what lies
    above the threshold. *)
Lemma C6_counterexample :
  vector_search example_model "" example_embeddings 10 (3 # 4)
    = Ok [("plum", 1)] /\
  hybrid_search indel_ratio example_model "" example_notes example_embeddings
    10 (3 # 4) = Ok [("plum", 12 # 20)].
Proof. split; vm_compute; reflexivity. Qed.

(** The lexical matcher on an empty query: nothing, unless the vocabulary
    holds the empty term. *)
Example fuzzy_search_empty_query_example :
  fuzzy_search indel_ratio "" example_notes 10 = [] /\
  fuzzy_search indel_ratio "" ["plum"; ""] 10 = [("", 100 / 100)].
Proof. split; vm_compute; reflexivity. Qed.

(** At the threshold 1 the normalisation divides by zero as soon as there is
    a semantic result. *)
Example hybrid_search_raises_at_threshold_one :
  hybrid_search indel_ratio example_model "plums" example_notes
    example_embeddings 10 1 = Raise ZeroDivisionError.
Proof. vm_compute. reflexivity. Qed.

(** ** C9: the matchers are functions of their inputs *)

Section Determinism.
Variables scorer scorer' : Scorer.
Hypothesis same_scores : forall a b, scorer a b = scorer' a b.

Lemma extract_ext query choices limit cutoff :
  extract scorer query choices limit cutoff =
  extract scorer' query choices limit cutoff.
Proof.
  unfold extract. do 3 f_equal. apply map_ext. intros [i c]. simpl.
  now rewrite same_scores.
Qed.

Lemma pass_scores_ext query notes :
  pass_scores scorer query notes = pass_scores scorer' query notes.
Proof.
  unfold pass_scores. rewrite extract_ext. f_equal.
  apply flat_map_ext. intros word. unfold token_hits.
  now rewrite extract_ext.
Qed.

Lemma fuzzy_search_ext query notes limit :
  fuzzy_search scorer query notes limit =
  fuzzy_search scorer' query notes limit.
Proof.
  unfold fuzzy_search.
  now rewrite !fuzzy_candidates_max_merge, pass_scores_ext.
Qed.
End Determinism.

Lemma vector_search_ext (model model' : Model) query note_embeddings limit
    threshold :
  model ("query: " ++ query) = model' ("query: " ++ query) ->
  vector_search model query note_embeddings limit threshold =
  vector_search model' query note_embeddings limit threshold.
Proof. intros H. unfold vector_search. now rewrite H. Qed.

(** C9. Determinism: the result of each matcher is fixed by the query, the
    vocabulary, the embedding snapshot, the limit and the threshold, by the
    values of the scorer and by the embedding of the prefixed query. Two
    invocations whose collaborators answer alike return the same ordered
    sequence (the same exception, should one be raised); and the order of
    ties is fixed too: entries of [fuzzy_search] with equal scores stand in
    the order in which their terms were discovered. *)
Theorem C9_matchers_are_deterministic
    (scorer scorer' : Scorer) (model model' : Model) (query : string)
    (notes : list string) (note_embeddings : dict Vec) (limit : Z)
    (threshold : Q) :
  (forall a b, scorer a b = scorer' a b) ->
  model ("query: " ++ query) = model' ("query: " ++ query) ->
  fuzzy_search scorer query notes limit = fuzzy_search scorer' query notes limit /\
  vector_search model query note_embeddings limit threshold =
    vector_search model' query note_embeddings limit threshold /\
  hybrid_search scorer model query notes note_embeddings limit threshold =
    hybrid_search scorer' model' query notes note_embeddings limit threshold /\
  (forall x y,
     before x y (fuzzy_search scorer query notes limit) -> snd x == snd y ->
     before x y (fuzzy_candidates scorer query notes)).
Proof.
  intros Hs Hm. split; [now apply fuzzy_search_ext|].
  split; [now apply vector_search_ext|]. split.
  - unfold hybrid_search, hybrid_combined.
    now rewrite (fuzzy_search_ext _ _ Hs), (vector_search_ext _ _ _ _ _ _ Hm).
  - intros x y Hb Heq. unfold fuzzy_search in Hb.
    apply before_py_take in Hb. now apply sorted_reverse_ties in Hb.
Qed.

(** The second model of the statement embeds other texts differently; that
    changes nothing for the query "plums". *)
Lemma C9_matchers_are_deterministic_witness :
  fuzzy_search indel_ratio "plums" example_notes 10 =
    fuzzy_search indel_ratio "plums" example_notes 10 /\
  vector_search example_model "plums" example_embeddings 10 (3 # 4) =
    vector_search other_model "plums" example_embeddings 10 (3 # 4) /\
  hybrid_search indel_ratio example_model "plums" example_notes
    example_embeddings 10 (3 # 4) =
    hybrid_search indel_ratio other_model "plums" example_notes
      example_embeddings 10 (3 # 4) /\
  (forall x y,
     before x y (fuzzy_search indel_ratio "plums" example_notes 10) ->
     snd x == snd y ->
     before x y (fuzzy_candidates indel_ratio "plums" example_notes)).
Proof.
  apply (C9_matchers_are_deterministic indel_ratio indel_ratio
           example_model other_model "plums" example_notes example_embeddings
           10 (3 # 4)).
  - reflexivity.
  - reflexivity.
Defined.

(** ** Strings: [strip] and [split] around a fenced block *)

Lemma append_assoc (a b c : string) : (a ++ b) ++ c = a ++ (b ++ c).
Proof. induction a as [|x a IH]; simpl; [reflexivity|]. now rewrite IH. Qed.

Lemma append_empty_r (a : string) : a ++ "" = a.
Proof. induction a as [|x a IH]; simpl; [reflexivity|]. now rewrite IH. Qed.

Lemma prefix_empty (s : string) : prefix "" s = true.
Proof. now destruct s. Qed.

Lemma prefix_cons (a b : ascii) (s1 s2 : string) :
  prefix (String a s1) (String b s2) =
  if Ascii.eqb a b then prefix s1 s2 else false.
Proof.
  cbn [prefix]. destruct (ascii_dec a b) as [->|Hne].
  - now rewrite Ascii.eqb_refl.
  - apply Ascii.eqb_neq in Hne. now rewrite Hne.
Qed.

Lemma lstrip_spaces (w s : string) :
  str_forall is_space w = true -> lstrip (w ++ s) = lstrip s.
Proof.
  induction w as [|c w IH]; simpl; [reflexivity|].
  intros H. apply andb_prop in H as [Hc Hw]. rewrite Hc. auto.
Qed.

Lemma rstrip_nonspace_end (s : string) (c : ascii) :
  is_space c = false -> rstrip (s ++ String c "") = s ++ String c "".
Proof.
  intros Hc. induction s as [|x s IH]; simpl.
  - now rewrite Hc.
  - rewrite IH. now destruct s.
Qed.

Lemma rstrip_app (s t : string) :
  rstrip (s ++ t) = if is_empty (rstrip t) then rstrip s else s ++ rstrip t.
Proof.
  induction s as [|c s IH]; simpl.
  - now destruct (rstrip t).
  - rewrite IH. destruct (rstrip t) as [|x r]; simpl; [reflexivity|].
    now destruct s.
Qed.

(** [strip] around a fenced block: the whitespace in front goes, the block
    stays, and what follows the closing fence loses its trailing
    whitespace. *)
Lemma strip_fenced (w1 inner tail : string) :
  str_forall is_space w1 = true ->
  strip (w1 ++ (fence ++ inner ++ fence) ++ tail) =
  (fence ++ inner ++ fence) ++ rstrip tail.
Proof.
  intros H1. unfold strip. rewrite lstrip_spaces by assumption.
  change (lstrip ((fence ++ inner ++ fence) ++ tail))
    with ((fence ++ inner ++ fence) ++ tail).
  rewrite rstrip_app. destruct (rstrip tail) as [|x r] eqn:E; simpl is_empty;
    cbv iota; [|reflexivity].
  rewrite append_empty_r.
  replace (fence ++ inner ++ fence)
    with ((fence ++ inner ++ "``") ++ String "`" "").
  - now apply rstrip_nonspace_end.
  - now rewrite !append_assoc.
Qed.

Lemma prefix_fence_other (c : ascii) (s : string) :
  not_backtick c = true -> prefix fence (String c s) = false.
Proof.
  unfold not_backtick. rewrite negb_true_iff. intros H.
  unfold fence. rewrite prefix_cons, Ascii.eqb_sym. now rewrite H.
Qed.

Lemma split_from_no_fence (cur body rest : string) :
  str_forall not_backtick body = true ->
  split_from fence 0 cur (body ++ rest) = split_from fence 0 (cur ++ body) rest.
Proof.
  revert cur. induction body as [|c body IH]; intros cur H.
  - now rewrite append_empty_r.
  - simpl in H. apply andb_prop in H as [Hc Hb].
    change ((String c body) ++ rest) with (String c (body ++ rest)).
    cbn [split_from]. rewrite prefix_fence_other by assumption.
    rewrite IH by assumption. now rewrite append_assoc.
Qed.

Lemma split_from_fence (cur rest : string) :
  split_from fence 0 cur (fence ++ rest) = cur :: split_from fence 0 "" rest.
Proof.
  change (fence ++ rest) with (String "`" (String "`" (String "`" rest))).
  cbn [split_from]. unfold fence at 1. rewrite !prefix_cons, prefix_empty.
  reflexivity.
Qed.

Lemma str_split_fenced (inner tail : string) :
  str_forall not_backtick inner = true ->
  str_split ((fence ++ inner ++ fence) ++ tail) fence =
  "" :: inner :: split_from fence 0 "" tail.
Proof.
  intros H. unfold str_split. rewrite !append_assoc, split_from_fence.
  rewrite split_from_no_fence by assumption. simpl append at 1.
  now rewrite split_from_fence.
Qed.

Lemma startswith_fenced (inner tail : string) :
  startswith ((fence ++ inner ++ fence) ++ tail) fence = true.
Proof.
  unfold startswith. change ((fence ++ inner ++ fence) ++ tail)
    with (String "`" (String "`" (String "`" ((inner ++ fence) ++ tail)))).
  unfold fence at 1. rewrite !prefix_cons, prefix_empty. reflexivity.
Qed.

(** ** get_llm_mappings *)

Section Mappings.
Variable json_loads : Decoder.

(** What the body of the [try] hands to the decoder. *)
Lemma parse_response_fenced (w1 inner tail : string) (more : list string) :
  str_forall is_space w1 = true ->
  str_forall not_backtick inner = true ->
  parse_response json_loads
    ((w1 ++ (fence ++ inner ++ fence) ++ tail) :: more) =
  json_loads (if startswith inner "json" then str_drop 4 inner else inner).
Proof.
  intros H1 Hin. unfold parse_response. cbn [py_index nth_error bind].
  rewrite strip_fenced by assumption.
  rewrite startswith_fenced, str_split_fenced by assumption.
  reflexivity.
Qed.

(** The body of the [try] raises [IndexError], or whatever the decoder
    raises. *)
Lemma parse_response_Raise content e :
  parse_response json_loads content = Raise e ->
  e = IndexError \/ exists text, json_loads text = Raise e.
Proof.
  unfold parse_response, py_index.
  destruct (nth_error content 0) as [block|]; cbn [bind];
    [|intros [= <-]; now left].
  destruct (startswith (strip block) fence); cbn [bind].
  - destruct (nth_error (str_split (strip block) fence) 1) as [text|];
      cbn [bind]; [|intros [= <-]; now left].
    intros H. right. eauto.
  - intros H. right. eauto.
Qed.

Lemma parse_response_Ok content value :
  parse_response json_loads content = Ok value ->
  exists text, json_loads text = Ok value.
Proof.
  unfold parse_response.
  destruct (py_index content 0) as [block|]; cbn [bind]; [|discriminate].
  destruct (startswith (strip block) fence); cbn [bind].
  - destruct (py_index (str_split (strip block) fence) 1) as [text|];
      cbn [bind]; [|discriminate].
    intros H. eauto.
  - intros H. eauto.
Qed.

(** Once the client has answered: the value, the empty mappings for an
    exception of the [except] clause, and any other exception as it is. *)
Lemma get_llm_mappings_answered (client : Client) term content :
  client (user_message term) = Ok content ->
  get_llm_mappings json_loads client term =
  match parse_response json_loads content with
  | Ok value => Ok value
  | Raise e => if parse_failure e then Ok empty_mappings else Raise e
  end.
Proof.
  intros H. unfold get_llm_mappings. rewrite H. reflexivity.
Qed.

Lemma get_llm_mappings_client_raises (client : Client) term e :
  client (user_message term) = Raise e ->
  get_llm_mappings json_loads client term = Raise e.
Proof. intros H. unfold get_llm_mappings. now rewrite H. Qed.
End Mappings.

Lemma startswith_json (body : string) : startswith ("json" ++ body) "json" = true.
Proof.
  unfold startswith. change ("json" ++ body)
    with (String "j" (String "s" (String "o" (String "n" body)))).
  rewrite !prefix_cons, prefix_empty. reflexivity.
Qed.

(** ** C8: the recovery misses the decoder's other exceptions *)

(** C8 (code bug). Enrichment-oracle failure recovery: the [except] clause
    answers [JSONDecodeError] and [IndexError] by the empty mappings, but an
    answer on which the decoder raises any other exception is not recovered:
    once the client has answered, an exception of the parsing that the clause
    does not list comes from the decoder and leaves [get_llm_mappings] as it
    is, so the batch fails. *)
Theorem C8_decoder_exceptions_escape
    (json_loads : Decoder) (client : Client) (term : string)
    (content : list string) (e : exn) :
  client (user_message term) = Ok content ->
  parse_response json_loads content = Raise e ->
  parse_failure e = false ->
  get_llm_mappings json_loads client term = Raise e /\
  exists text, json_loads text = Raise e.
Proof.
  intros Hc Hp He. rewrite (get_llm_mappings_answered _ _ _ _ Hc), Hp, He.
  split; [reflexivity|].
  apply parse_response_Raise in Hp as [->|H]; [discriminate|assumption].
Qed.

(** An answer of a thousand opening brackets: the decoder raises
    [RecursionError], and so does [get_llm_mappings]. *)
Lemma C8_decoder_exceptions_escape_witness :
  parse_response json_loads_lite [deep_answer] = Raise RecursionError /\
  get_llm_mappings json_loads_lite (example_client deep_answer) "funky"
    = Raise RecursionError.
Proof.
  assert (H : parse_response json_loads_lite [deep_answer] = Raise RecursionError)
    by (vm_compute; reflexivity).
  split; [exact H|].
  exact (proj1 (C8_decoder_exceptions_escape json_loads_lite
                  (example_client deep_answer) "funky" [deep_answer]
                  RecursionError eq_refl H eq_refl)).
Defined.

Example get_llm_mappings_recovers_prose :
  get_llm_mappings json_loads_lite
    (example_client "Sure! Here are the notes you asked for.") "funky"
  = Ok empty_mappings.
Proof. vm_compute. reflexivity. Qed.

Example get_llm_mappings_recovers_empty_content :
  get_llm_mappings json_loads_lite (fun _ => Ok []) "funky" = Ok empty_mappings.
Proof. reflexivity. Qed.

Example get_llm_mappings_unwraps_fence :
  get_llm_mappings json_loads_lite (example_client fenced_answer) "berry bomb" =
  Ok (JObject [("mappedNotes", JArray [JString "berry"; JString "jammy"]);
               ("mappedProcesses", JArray [JString "natural"])]).
Proof. vm_compute. reflexivity. Qed.

(** ** C7: the oracle's answer is returned as decoded *)

(** C7 (amended). Enrichment-oracle output: the mapping [get_llm_mappings]
    returns is either the value the JSON decoder produced from the oracle's
    answer, returned as decoded, or the empty mappings of the failure path.
    The empty mappings have the shape of the spec (at most 8 notes, each from
    [ALL_NOTES], at most 3 processes); for a decoded answer the shape is
    whatever the oracle wrote: the limits are asked for in the system prompt
    and not checked. *)
Theorem C7_mappings_are_returned_as_decoded
    (json_loads : Decoder) (client : Client) (term : string) (mappings : json) :
  get_llm_mappings json_loads client term = Ok mappings ->
  exists content,
    client (user_message term) = Ok content /\
    ((parse_response json_loads content = Ok mappings /\
      exists text, json_loads text = Ok mappings)
     \/
     (mappings = empty_mappings /\ mapping_shape_ok mappings = true /\
      exists e, parse_response json_loads content = Raise e)).
Proof.
  intros H.
  destruct (client (user_message term)) as [content|] eqn:Hc;
    [|rewrite (get_llm_mappings_client_raises _ _ _ _ Hc) in H; discriminate].
  exists content. split; [reflexivity|].
  rewrite (get_llm_mappings_answered json_loads client term content Hc) in H.
  destruct (parse_response json_loads content) as [v|e] eqn:E.
  - injection H as <-. left. split; [reflexivity|].
    now apply parse_response_Ok in E.
  - destruct (parse_failure e); [|discriminate]. injection H as <-.
    right. repeat split. now exists e.
Qed.

Lemma C7_mappings_are_returned_as_decoded_witness :
  exists content,
    example_client unicorn_answer (user_message "funky") = Ok content /\
    ((parse_response json_loads_lite content =
        Ok (JObject [("mappedNotes", JArray [JString "unicorn"]);
                     ("mappedProcesses", JArray [])]) /\
      exists text,
        json_loads_lite text =
        Ok (JObject [("mappedNotes", JArray [JString "unicorn"]);
                     ("mappedProcesses", JArray [])]))
     \/
     (JObject [("mappedNotes", JArray [JString "unicorn"]);
               ("mappedProcesses", JArray [])] = empty_mappings /\
      mapping_shape_ok
        (JObject [("mappedNotes", JArray [JString "unicorn"]);
                  ("mappedProcesses", JArray [])]) = true /\
      exists e, parse_response json_loads_lite content = Raise e)).
Proof.
  apply (C7_mappings_are_returned_as_decoded json_loads_lite
           (example_client unicorn_answer) "funky").
  vm_compute. reflexivity.
Defined.

(** The claim as the spec states it fails: an answer that names a note
    outside the vocabulary is returned as it is. *)
Lemma C7_counterexample :
  get_llm_mappings json_loads_lite (example_client unicorn_answer) "funky" =
    Ok (JObject [("mappedNotes", JArray [JString "unicorn"]);
                 ("mappedProcesses", JArray [])]) /\
  mapping_shape_ok
    (JObject [("mappedNotes", JArray [JString "unicorn"]);
              ("mappedProcesses", JArray [])]) = false.
Proof. split; vm_compute; reflexivity. Qed.

(* ================================================================== *)
(** * Part III. Further properties of the code *)
(* ================================================================== *)

(** ** The cut to [limit] *)

Lemma py_take_length {A : Type} (limit : Z) (l : list A) :
  List.length (py_take limit l) = take_count limit (List.length l).
Proof.
  unfold py_take, take_count. destruct (limit <? 0)%Z; rewrite length_firstn; lia.
Qed.

Lemma take_count_le (limit : Z) (n : nat) :
  (0 <= limit)%Z -> (Z.of_nat (take_count limit n) <= limit)%Z.
Proof.
  intros H. unfold take_count.
  destruct (limit <? 0)%Z eqn:E; [apply Z.ltb_lt in E; lia|]. lia.
Qed.

Lemma py_take_py_take {A : Type} (limit limit' : Z) (l : list A) :
  (0 <= limit <= limit')%Z ->
  py_take limit (py_take limit' l) = py_take limit l.
Proof.
  intros [H0 H1]. unfold py_take.
  destruct (limit <? 0)%Z eqn:E; [apply Z.ltb_lt in E; lia|].
  destruct (limit' <? 0)%Z eqn:E'; [apply Z.ltb_lt in E'; lia|].
  rewrite firstn_firstn. f_equal. lia.
Qed.

(** X1. The number of results: each matcher returns [min(limit, n)] entries
    of its [n] candidates when [limit] is not negative, so never more than
    [limit]; a negative [limit] is read as a Python slice and drops the last
    [-limit] candidates. The candidates are the [candidates] mapping of
    [fuzzy_search], the similarities at or above the threshold of
    [vector_search], the [combined] mapping of [hybrid_search]. *)
Theorem X1_results_are_cut_to_limit
    (scorer : Scorer) (model : Model) (query : string) (notes : list string)
    (note_embeddings : dict Vec) (limit : Z) (threshold : Q) :
  (List.length (fuzzy_search scorer query notes limit) =
     take_count limit (List.length (fuzzy_candidates scorer query notes)) /\
   ((0 <= limit)%Z ->
    (Z.of_nat (List.length (fuzzy_search scorer query notes limit)) <= limit)%Z))
  /\
  (forall res,
     vector_search model query note_embeddings limit threshold = Ok res ->
     List.length res =
       take_count limit
         (List.length (kept_similarities (model ("query: " ++ query)) threshold
                         note_embeddings)) /\
     ((0 <= limit)%Z -> (Z.of_nat (List.length res) <= limit)%Z))
  /\
  (forall res,
     hybrid_search scorer model query notes note_embeddings limit threshold
       = Ok res ->
     exists combined,
       hybrid_combined scorer model query notes note_embeddings threshold
         = Ok combined /\
       List.length res = take_count limit (List.length combined) /\
       ((0 <= limit)%Z -> (Z.of_nat (List.length res) <= limit)%Z)).
Proof.
  split; [|split].
  - unfold fuzzy_search. rewrite py_take_length, sorted_reverse_length.
    split; [reflexivity|]. apply take_count_le.
  - intros res H. apply vector_search_Ok in H as [_ ->].
    rewrite py_take_length, sorted_reverse_length.
    split; [reflexivity|]. apply take_count_le.
  - intros res H. apply hybrid_search_Ok in H as (combined & Hc & ->).
    exists combined. split; [assumption|].
    rewrite py_take_length, sorted_reverse_length.
    split; [reflexivity|]. apply take_count_le.
Qed.

(** X2. Raising the limit only appends: for [0 <= limit <= limit'] the
    results for [limit] are the first [limit] results for [limit'].  In
    particular a lexical or semantic list of at most 20 entries is the head
    of the list that [hybrid_search] fuses. *)
Theorem X2_smaller_limit_is_a_prefix
    (scorer : Scorer) (model : Model) (query : string) (notes : list string)
    (note_embeddings : dict Vec) (limit limit' : Z) (threshold : Q) :
  (0 <= limit <= limit')%Z ->
  fuzzy_search scorer query notes limit =
    py_take limit (fuzzy_search scorer query notes limit') /\
  vector_search model query note_embeddings limit threshold =
    (res <- vector_search model query note_embeddings limit' threshold ;;
     Ok (py_take limit res)) /\
  hybrid_search scorer model query notes note_embeddings limit threshold =
    (res <- hybrid_search scorer model query notes note_embeddings limit'
              threshold ;;
     Ok (py_take limit res)).
Proof.
  intros H. split; [|split].
  - unfold fuzzy_search. now rewrite py_take_py_take.
  - unfold vector_search.
    destruct (vector_candidates _ note_embeddings threshold []); simpl;
      [|reflexivity].
    now rewrite py_take_py_take.
  - unfold hybrid_search.
    destruct (hybrid_combined scorer model query notes note_embeddings threshold);
      simpl; [|reflexivity].
    now rewrite py_take_py_take.
Qed.

Lemma X2_smaller_limit_is_a_prefix_witness :
  (0 <= 1 <= 20)%Z /\
  fuzzy_search indel_ratio "cherry berry" berry_notes 1 =
    py_take 1 (fuzzy_search indel_ratio "cherry berry" berry_notes 20).
Proof.
  split; [lia|].
  apply (X2_smaller_limit_is_a_prefix indel_ratio example_model "cherry berry"
           berry_notes berry_embeddings 1 20 (3 # 4)).
  lia.
Defined.

(** ** What [fuzzy_search] returns *)

Lemma fuzzy_hits_In matches t s :
  In (t, s) (fuzzy_hits matches) ->
  exists r, In r matches /\ t = fst (fst r) /\ s = match_score r / 100.
Proof.
  unfold fuzzy_hits. intros H. apply in_map_iff in H as (r & [= <- <-] & Hr).
  now exists r.
Qed.

Lemma pass_scores_ge_half (scorer : Scorer) query notes t s :
  In (t, s) (pass_scores scorer query notes) -> 1 # 2 <= s.
Proof.
  assert (Hfz : forall q c, 50 <= c ->
            In (t, s) (fuzzy_hits (extract scorer q notes 5 c)) -> 1 # 2 <= s).
  { intros q c Hc H. apply fuzzy_hits_In in H as (r & Hr & _ & ->).
    apply extract_In in Hr as (_ & _ & Hle).
    apply Qle_shift_div_l; [reflexivity|].
    apply Qle_trans with c; [|assumption].
    apply Qle_trans with 50; [discriminate|assumption]. }
  unfold pass_scores. rewrite in_app_iff, in_flat_map.
  intros [(w & _ & H)|H].
  - unfold token_hits in H. apply in_app_iff in H as [H|H].
    + unfold substring_hits in H. apply in_map_iff in H as (n & [= _ <-] & _).
      discriminate.
    + apply (Hfz w 60); [discriminate|assumption].
  - apply (Hfz query 50); [apply Qle_refl|assumption].
Qed.

(** X3. What the lexical matcher returns: distinct terms of the vocabulary,
    by decreasing score, each score at least 0.5 (the whole-query cutoff
    50/100 is the lowest way in) and, for a scorer on the scale 0..100, at
    most 1. *)
Theorem X3_fuzzy_search_is_sound
    (scorer : Scorer) (query : string) (notes : list string) (limit : Z) :
  NoDup (keys (fuzzy_search scorer query notes limit)) /\
  descending snd (fuzzy_search scorer query notes limit) /\
  forall t s,
    In (t, s) (fuzzy_search scorer query notes limit) ->
    In t notes /\ 1 # 2 <= s /\
    ((forall a b, scorer a b <= 100) -> s <= 1).
Proof.
  split; [apply fuzzy_search_NoDup|]. split.
  - unfold fuzzy_search. apply descending_py_take, sorted_reverse_descending.
  - intros t s H. apply fuzzy_search_In in H.
    pose proof (dict_get_Some_key _ _ _ H) as Hk.
    apply fuzzy_candidates_spec in H as [H _]. split.
    + now apply fuzzy_candidates_in_notes in Hk.
    + split; [now apply pass_scores_ge_half in H|].
      intros Hrange. now apply (pass_scores_le_1 scorer query notes Hrange t).
Qed.

(** X4. Tokens shorter than three characters are skipped: when no token of
    the query survives, only the whole-query pass contributes, so every
    returned score is the scorer's value for the whole query and the term,
    divided by 100, with that value at least 50. A substring relation between
    a short token and a term gives nothing. *)
Theorem X4_short_tokens_fall_through
    (scorer : Scorer) (query : string) (notes : list string) (limit : Z)
    (t : string) (s : Q) :
  surviving_tokens query = [] ->
  In (t, s) (fuzzy_search scorer query notes limit) ->
  s = scorer query t / 100 /\ 50 <= scorer query t.
Proof.
  intros Hnone H. apply fuzzy_search_In in H.
  apply fuzzy_candidates_spec in H as [H _].
  unfold pass_scores in H. rewrite Hnone in H. simpl in H.
  apply fuzzy_hits_In in H as (r & Hr & -> & ->).
  apply extract_In in Hr as (_ & Hs & Hle). rewrite Hs in *. now split.
Qed.

(** The query "be ry" has two short tokens; "berry" is found by the
    whole-query pass with score 80/100, not by the substring rule. *)
Lemma X4_short_tokens_fall_through_witness :
  surviving_tokens "be ry" = [] /\
  In ("berry", 800 # 1000) (fuzzy_search indel_ratio "be ry" berry_notes 10) /\
  800 # 1000 = indel_ratio "be ry" "berry" / 100 /\
  50 <= indel_ratio "be ry" "berry".
Proof.
  split; [reflexivity|]. split; [vm_compute; now left|].
  apply (X4_short_tokens_fall_through indel_ratio "be ry" berry_notes 10
           "berry" (800 # 1000)).
  - reflexivity.
  - vm_compute. now left.
Defined.

(** ** What [vector_search] returns, and when it fails *)

Lemma kept_similarities_before query_embedding threshold items x y :
  before x y (kept_similarities query_embedding threshold items) ->
  before (fst x) (fst y) (keys items).
Proof.
  induction items as [|[note emb] items IH]; simpl.
  - intros (l1 & l2 & l3 & E). now destruct l1.
  - destruct (np_dot query_embedding emb) as [s|]; simpl;
      [|intros H; apply before_cons; auto].
    destruct (Qle_bool threshold s); simpl;
      [|intros H; apply before_cons; auto].
    intros H. apply before_cons_inv in H as [[<- Hy]|H].
    + simpl. apply before_head. apply kept_similarities_keys with
        (query_embedding := query_embedding) (threshold := threshold).
      unfold keys. now apply in_map.
    + apply before_cons. auto.
Qed.

(** X5. What the semantic matcher returns: entries by decreasing similarity,
    each one a stored embedding with its dot product with the query
    embedding, at or above the threshold; distinct terms when the mapping has
    unique keys; and entries with equal similarities in the order of the
    embedding mapping. *)
Theorem X5_vector_search_is_sound
    (model : Model) (query : string) (note_embeddings : dict Vec) (limit : Z)
    (threshold : Q) (res : list (string * Q)) :
  vector_search model query note_embeddings limit threshold = Ok res ->
  descending snd res /\
  (forall t s,
     In (t, s) res ->
     threshold <= s /\
     exists embedding,
       In (t, embedding) note_embeddings /\
       np_dot (model ("query: " ++ query)) embedding = Ok s) /\
  (NoDup (keys note_embeddings) -> NoDup (keys res)) /\
  (forall x y,
     before x y res -> snd x == snd y ->
     before (fst x) (fst y) (keys note_embeddings)).
Proof.
  intros H. pose proof H as H'. apply vector_search_Ok in H' as [_ ->].
  split; [apply descending_py_take, sorted_reverse_descending|].
  split; [|split].
  - intros t s Hin. apply py_take_In in Hin. apply sorted_reverse_In in Hin.
    apply kept_similarities_In in Hin as (emb & Hin & Hdot & Hle).
    split; [assumption|]. now exists emb.
  - intros Hnd. eapply vector_search_NoDup; eassumption.
  - intros x y Hb Heq. apply before_py_take in Hb.
    apply sorted_reverse_ties in Hb; [|assumption].
    now apply kept_similarities_before in Hb.
Qed.

Lemma X5_vector_search_is_sound_witness :
  descending snd [("plum", 1); ("peach", 15 # 25)] /\
  (forall t s,
     In (t, s) [("plum", 1); ("peach", 15 # 25)] ->
     1 # 2 <= s /\
     exists embedding,
       In (t, embedding) example_embeddings /\
       np_dot (example_model ("query: " ++ "plums")) embedding = Ok s) /\
  (NoDup (keys example_embeddings) ->
   NoDup (keys [("plum", 1); ("peach", 15 # 25)])) /\
  (forall x y,
     before x y [("plum", 1); ("peach", 15 # 25)] -> snd x == snd y ->
     before (fst x) (fst y) (keys example_embeddings)).
Proof.
  apply (X5_vector_search_is_sound example_model "plums" example_embeddings 10
           (1 # 2)).
  reflexivity.
Defined.

Lemma np_dot_Raise (u v : Vec) e : np_dot u v = Raise e -> e = ValueError.
Proof.
  revert v. induction u as [|a u IH]; intros [|b v] H; simpl in H;
    try discriminate; try (now injection H).
  destruct (np_dot u v) as [r|e'] eqn:E; simpl in H; [discriminate|].
  injection H as <-. eauto.
Qed.

Lemma vector_candidates_Raise query_embedding items threshold acc e :
  vector_candidates query_embedding items threshold acc = Raise e ->
  e = ValueError.
Proof.
  revert acc. induction items as [|[note emb] items IH]; intros acc; simpl;
    [discriminate|].
  destruct (np_dot query_embedding emb) as [s|e'] eqn:E; simpl.
  - apply IH.
  - intros [= <-]. now apply np_dot_Raise in E.
Qed.

Lemma vector_search_Raise model query note_embeddings limit threshold e :
  vector_search model query note_embeddings limit threshold = Raise e ->
  e = ValueError /\
  ~ same_dimension (model ("query: " ++ query)) note_embeddings.
Proof.
  intros H. split.
  - unfold vector_search in H.
    destruct (vector_candidates _ note_embeddings threshold []) as [c|e'] eqn:E;
      simpl in H; [discriminate|].
    injection H as <-. now apply vector_candidates_Raise in E.
  - intros Hdim. rewrite vector_search_total in H by assumption. discriminate.
Qed.

Lemma vector_search_mismatch model query note_embeddings limit threshold :
  ~ same_dimension (model ("query: " ++ query)) note_embeddings ->
  vector_search model query note_embeddings limit threshold = Raise ValueError.
Proof.
  intros Hdim.
  destruct (vector_search model query note_embeddings limit threshold)
    as [res|e] eqn:E.
  - apply vector_search_Ok in E as [Hd _]. contradiction.
  - now apply vector_search_Raise in E as [-> _].
Qed.

(** X6. When the semantic matcher fails: it raises exactly when some stored
    embedding has not the dimension of the query embedding, and the exception
    is the [ValueError] of [np.dot].  The threshold and the limit play no
    part: one embedding of the wrong shape fails the search wherever it
    stands. *)
Theorem X6_vector_search_raises_on_dimension_mismatch
    (model : Model) (query : string) (note_embeddings : dict Vec) (limit : Z)
    (threshold : Q) :
  (forall e,
     vector_search model query note_embeddings limit threshold = Raise e ->
     e = ValueError /\
     ~ same_dimension (model ("query: " ++ query)) note_embeddings) /\
  (~ same_dimension (model ("query: " ++ query)) note_embeddings ->
   vector_search model query note_embeddings limit threshold = Raise ValueError) /\
  (same_dimension (model ("query: " ++ query)) note_embeddings ->
   exists res,
     vector_search model query note_embeddings limit threshold = Ok res).
Proof.
  split; [|split].
  - intros e. apply vector_search_Raise.
  - apply vector_search_mismatch.
  - intros Hdim. rewrite vector_search_total by assumption. eauto.
Qed.

Example vector_search_wrong_shape :
  vector_search example_model "plums"
    [("plum", [1; 0]); ("peach", [0; 0; 1])] 1 (3 # 4) = Raise ValueError.
Proof. reflexivity. Qed.

(** ** When [hybrid_search] fails *)

Lemma add_vector_results_Raise vector_threshold vector_results combined e :
  add_vector_results vector_threshold vector_results combined = Raise e ->
  e = ZeroDivisionError /\ 1 - vector_threshold == 0 /\ vector_results <> [].
Proof.
  intros H.
  assert (Hz : 1 - vector_threshold == 0).
  { destruct (Qeq_bool (1 - vector_threshold) 0) eqn:E;
      [now apply Qeq_bool_iff|].
    rewrite add_vector_results_total in H; [discriminate|].
    intros Hz. apply Qeq_bool_iff in Hz. congruence. }
  destruct vector_results as [|[k s] l]; simpl in H; [discriminate|].
  unfold py_div in H. apply Qeq_bool_iff in Hz. rewrite Hz in H. simpl in H.
  injection H as <-. apply Qeq_bool_iff in Hz. repeat split; [assumption|].
  discriminate.
Qed.

Lemma add_vector_results_zero_division vector_threshold vector_results combined :
  1 - vector_threshold == 0 -> vector_results <> [] ->
  add_vector_results vector_threshold vector_results combined
  = Raise ZeroDivisionError.
Proof.
  intros Hz Hne. destruct vector_results as [|[k s] l]; [contradiction|].
  simpl. unfold py_div. apply Qeq_bool_iff in Hz. now rewrite Hz.
Qed.

Lemma threshold_one (vector_threshold : Q) :
  1 - vector_threshold == 0 <-> vector_threshold == 1.
Proof.
  split; intros H.
  - rewrite <- (Qplus_0_l vector_threshold), <- H. ring.
  - rewrite H. ring.
Qed.

(** X7. When the fusion ranker fails: [hybrid_search] raises the [ValueError]
    of the semantic matcher when a stored embedding has the wrong dimension,
    and [ZeroDivisionError] when the threshold is 1 and the semantic matcher
    returned at least one result; it raises in no other case.  At threshold 1
    with no semantic result it returns. *)
Theorem X7_hybrid_search_failures
    (scorer : Scorer) (model : Model) (query : string) (notes : list string)
    (note_embeddings : dict Vec) (limit : Z) (vector_threshold : Q) :
  (forall e,
     hybrid_search scorer model query notes note_embeddings limit
       vector_threshold = Raise e ->
     (e = ValueError /\
      ~ same_dimension (model ("query: " ++ query)) note_embeddings)
     \/
     (e = ZeroDivisionError /\ vector_threshold == 1 /\
      exists vector_results,
        vector_search model query note_embeddings 20 vector_threshold
          = Ok vector_results /\ vector_results <> [])) /\
  (~ same_dimension (model ("query: " ++ query)) note_embeddings ->
   hybrid_search scorer model query notes note_embeddings limit
     vector_threshold = Raise ValueError) /\
  (forall vector_results,
     vector_search model query note_embeddings 20 vector_threshold
       = Ok vector_results ->
     vector_results <> [] -> vector_threshold == 1 ->
     hybrid_search scorer model query notes note_embeddings limit
       vector_threshold = Raise ZeroDivisionError) /\
  (vector_search model query note_embeddings 20 vector_threshold = Ok [] ->
   exists res,
     hybrid_search scorer model query notes note_embeddings limit
       vector_threshold = Ok res).
Proof.
  unfold hybrid_search, hybrid_combined. split; [|split; [|split]].
  - intros e H.
    destruct (vector_search model query note_embeddings 20 vector_threshold)
      as [vr|e'] eqn:E; simpl in H.
    + right.
      destruct (add_vector_results vector_threshold vr _) as [c|e''] eqn:Ea;
        simpl in H; [discriminate|].
      injection H as <-.
      apply add_vector_results_Raise in Ea as (-> & Hz & Hne).
      split; [reflexivity|]. split; [now apply threshold_one|]. now exists vr.
    + left. injection H as <-. now apply vector_search_Raise in E.
  - intros Hdim. now rewrite vector_search_mismatch.
  - intros vr -> Hne Hth. simpl.
    rewrite add_vector_results_zero_division;
      [reflexivity|now apply threshold_one|assumption].
  - intros ->. simpl. eauto.
Qed.

(** ** Which terms [hybrid_search] returns *)

Lemma accumulate_keys_In weigh results combined t :
  In t (keys (accumulate weigh results combined)) <->
  In t (keys combined) \/ In t (keys results).
Proof.
  unfold accumulate. revert combined.
  induction results as [|[k s] results IH]; intros c; simpl.
  - tauto.
  - rewrite IH, In_keys_dict_set. intuition congruence.
Qed.

Lemma hybrid_combined_keys_In scorer model query notes note_embeddings
    vector_threshold combined vector_results t :
  hybrid_combined scorer model query notes note_embeddings vector_threshold
    = Ok combined ->
  vector_search model query note_embeddings 20 vector_threshold
    = Ok vector_results ->
  In t (keys combined) <->
  In t (keys (fuzzy_search scorer query notes 20)) \/ In t (keys vector_results).
Proof.
  intros Hc Hvs. apply hybrid_combined_Ok in Hc as (vr & Hvr & -> & _).
  rewrite Hvs in Hvr. injection Hvr as <-.
  rewrite !accumulate_keys_In. simpl. tauto.
Qed.

(** X8. Which terms the fusion ranker returns: distinct terms, each found by
    the lexical matcher or by the semantic matcher in its top 20, hence a
    term of the vocabulary or a key of the embedding mapping; a term found by
    neither is absent.  Conversely every term of either top 20 is in the
    combined mapping, and is returned when [limit] covers the mapping. *)
Theorem X8_hybrid_search_returns_matched_terms
    (scorer : Scorer) (model : Model) (query : string) (notes : list string)
    (note_embeddings : dict Vec) (limit : Z) (vector_threshold : Q)
    (res : list (string * Q)) :
  hybrid_search scorer model query notes note_embeddings limit vector_threshold
    = Ok res ->
  exists combined vector_results,
    hybrid_combined scorer model query notes note_embeddings vector_threshold
      = Ok combined /\
    vector_search model query note_embeddings 20 vector_threshold
      = Ok vector_results /\
    NoDup (keys res) /\
    (forall t,
       In t (keys res) ->
       (In t (keys (fuzzy_search scorer query notes 20)) \/
        In t (keys vector_results)) /\
       (In t notes \/ In t (keys note_embeddings))) /\
    (forall t,
       In t (keys (fuzzy_search scorer query notes 20)) \/
       In t (keys vector_results) ->
       In t (keys combined) /\
       ((Z.of_nat (List.length combined) <= limit)%Z -> In t (keys res))).
Proof.
  intros H. apply hybrid_search_Ok in H as (combined & Hc & ->).
  pose proof Hc as Hc'. apply hybrid_combined_Ok in Hc' as (vr & Hvr & _).
  exists combined, vr. split; [assumption|]. split; [assumption|].
  pose proof (fun t => hybrid_combined_keys_In _ _ _ _ _ _ _ _ t Hc Hvr)
    as Hkeys.
  split; [|split].
  - apply NoDup_keys_sorted_take. eapply hybrid_combined_NoDup; eassumption.
  - intros t Ht.
    assert (Hin : In t (keys combined)).
    { unfold keys in *. apply in_map_iff in Ht as (x & <- & Hx).
      apply py_take_In in Hx. apply sorted_reverse_In in Hx. now apply in_map. }
    apply Hkeys in Hin. split; [assumption|].
    destruct Hin as [Hin|Hin].
    + left. unfold keys in Hin. apply in_map_iff in Hin as ([k s] & <- & Hx).
      apply fuzzy_search_In in Hx. apply dict_get_Some_key in Hx.
      now apply fuzzy_candidates_in_notes in Hx.
    + right. apply vector_search_Ok in Hvr as [_ ->].
      unfold keys in Hin. apply in_map_iff in Hin as ([k s] & <- & Hx).
      apply py_take_In in Hx. apply sorted_reverse_In in Hx.
      apply (in_map fst) in Hx. now apply kept_similarities_keys in Hx.
  - intros t Ht. apply Hkeys in Ht. split; [assumption|]. intros Hlimit.
    rewrite py_take_all by now rewrite sorted_reverse_length.
    unfold keys in *. apply in_map_iff in Ht as (x & <- & Hx).
    apply in_map. now apply sorted_reverse_In.
Qed.

Lemma X8_hybrid_search_returns_matched_terms_witness :
  hybrid_search indel_ratio example_model "plums" example_notes
    example_embeddings 10 (1 # 2) = Ok [("plum", 50 # 50); ("peach", 30 # 250)] /\
  NoDup (keys [("plum", 50 # 50); ("peach", 30 # 250)]).
Proof.
  assert (H : hybrid_search indel_ratio example_model "plums" example_notes
                example_embeddings 10 (1 # 2)
              = Ok [("plum", 50 # 50); ("peach", 30 # 250)])
    by (vm_compute; reflexivity).
  split; [exact H|].
  destruct (X8_hybrid_search_returns_matched_terms _ _ _ _ _ _ _ _ H)
    as (combined & vector_results & _ & _ & Hnd & _).
  exact Hnd.
Defined.

(** ** The fused score, case by case *)

Lemma hybrid_combined_get scorer model query notes note_embeddings
    vector_threshold combined vector_results t :
  NoDup (keys note_embeddings) ->
  hybrid_combined scorer model query notes note_embeddings vector_threshold
    = Ok combined ->
  vector_search model query note_embeddings 20 vector_threshold
    = Ok vector_results ->
  dict_get combined t =
  match dict_get vector_results t,
        dict_get (fuzzy_search scorer query notes 20) t with
  | Some vs, Some ls =>
      Some (0 + lexical_weight ls + vector_weight vector_threshold vs)
  | Some vs, None => Some (0 + vector_weight vector_threshold vs)
  | None, Some ls => Some (0 + lexical_weight ls)
  | None, None => None
  end.
Proof.
  intros Hnd Hc Hvs. apply hybrid_combined_Ok in Hc as (vr & Hvr & -> & _).
  rewrite Hvs in Hvr. injection Hvr as <-.
  rewrite accumulate_get by (eapply vector_search_NoDup; eassumption).
  unfold dict_get_default.
  rewrite accumulate_get by apply fuzzy_search_NoDup. simpl.
  destruct (dict_get vector_results t), (dict_get (fuzzy_search _ _ _ _) t);
    reflexivity.
Qed.

Lemma hybrid_result_get scorer model query notes note_embeddings limit
    vector_threshold res t f :
  hybrid_search scorer model query notes note_embeddings limit vector_threshold
    = Ok res ->
  In (t, f) res ->
  exists combined,
    hybrid_combined scorer model query notes note_embeddings vector_threshold
      = Ok combined /\ dict_get combined t = Some f.
Proof.
  intros H Hin. apply hybrid_search_Ok in H as (combined & Hc & ->).
  exists combined. split; [assumption|].
  apply py_take_In in Hin. apply sorted_reverse_In in Hin.
  apply In_dict_get; [|assumption]. eapply hybrid_combined_NoDup; eassumption.
Qed.

(** X9. A term found by one matcher only carries that matcher's weighted
    contribution: a lexical-only term is returned with [ls * 0.4], a
    semantic-only term with [normalized * 0.6], which is the full vector
    weight 0.6 when the similarity is 1. *)
Theorem X9_single_matcher_contribution
    (scorer : Scorer) (model : Model) (query : string) (notes : list string)
    (note_embeddings : dict Vec) (limit : Z) (vector_threshold : Q)
    (res vector_results : list (string * Q)) (t : string) (f : Q) :
  NoDup (keys note_embeddings) ->
  hybrid_search scorer model query notes note_embeddings limit vector_threshold
    = Ok res ->
  vector_search model query note_embeddings 20 vector_threshold
    = Ok vector_results ->
  In (t, f) res ->
  (forall ls,
     In (t, ls) (fuzzy_search scorer query notes 20) ->
     ~ In t (keys vector_results) ->
     f == ls * (2 # 5)) /\
  (forall vs,
     ~ In t (keys (fuzzy_search scorer query notes 20)) ->
     In (t, vs) vector_results ->
     f == (vs - vector_threshold) / (1 - vector_threshold) * (3 # 5) /\
     (vs == 1 -> f == 3 # 5)).
Proof.
  intros Hnd Hres Hvs Hin.
  destruct (hybrid_result_get _ _ _ _ _ _ _ _ _ _ Hres Hin) as (combined & Hc & Hget).
  rewrite (hybrid_combined_get _ _ _ _ _ _ _ _ t Hnd Hc Hvs) in Hget.
  pose proof (vector_search_NoDup _ _ _ _ _ _ Hnd Hvs) as Hndv.
  split.
  - intros ls Hls Hnot. apply dict_get_None in Hnot. rewrite Hnot in Hget.
    rewrite (In_dict_get _ t ls) in Hget
      by (try assumption; apply fuzzy_search_NoDup).
    injection Hget as <-. unfold lexical_weight. apply Qplus_0_l.
  - intros vs Hnot Hvsin. apply dict_get_None in Hnot. rewrite Hnot in Hget.
    rewrite (In_dict_get _ t vs) in Hget by assumption.
    injection Hget as <-. unfold vector_weight, normalize.
    split; [apply Qplus_0_l|]. intros H1.
    apply hybrid_combined_Ok in Hc as (vr & Hvr & _ & Hnz).
    rewrite Hvs in Hvr. injection Hvr as <-.
    destruct Hnz as [->|Hnz]; [contradiction|].
    rewrite Qplus_0_l, H1. field. exact Hnz.
Qed.

(** On "plums" with threshold 1/2, "peach" is a semantic-only match with
    similarity 3/5: it is returned with (3/5 - 1/2) / (1 - 1/2) * 0.6. *)
Lemma X9_single_matcher_contribution_witness :
  (forall ls,
     In ("peach", ls) (fuzzy_search indel_ratio "plums" example_notes 20) ->
     ~ In "peach" (keys [("plum", 1); ("peach", 15 # 25)]) ->
     30 # 250 == ls * (2 # 5)) /\
  (forall vs,
     ~ In "peach" (keys (fuzzy_search indel_ratio "plums" example_notes 20)) ->
     In ("peach", vs) [("plum", 1); ("peach", 15 # 25)] ->
     30 # 250 == (vs - (1 # 2)) / (1 - (1 # 2)) * (3 # 5) /\
     (vs == 1 -> 30 # 250 == 3 # 5)).
Proof.
  apply (X9_single_matcher_contribution indel_ratio example_model
           "plums" example_notes example_embeddings 10 (1 # 2)
           [("plum", 50 # 50); ("peach", 30 # 250)]
           [("plum", 1); ("peach", 15 # 25)] "peach" (30 # 250)).
  - unfold keys; simpl. repeat constructor; simpl; intuition discriminate.
  - vm_compute. reflexivity.
  - vm_compute. reflexivity.
  - right. now left.
Defined.

Lemma normalize_range (vector_threshold vs : Q) :
  vector_threshold < 1 -> vector_threshold <= vs -> vs <= 1 ->
  0 <= normalize vector_threshold vs <= 1.
Proof.
  intros Hth Hle H1. unfold normalize.
  assert (Hpos : 0 < 1 - vector_threshold) by lra. split.
  - apply Qle_shift_div_l; [assumption|]. lra.
  - apply Qle_shift_div_r; [assumption|]. lra.
Qed.

(** X10. The final score stays in [0, 1]: for a scorer on the scale 0..100,
    a threshold below 1 and similarities that do not exceed 1 (unit
    vectors), every score [hybrid_search] returns lies between 0 and 1; the
    weights 0.4 and 0.6 sum to 1. *)
Theorem X10_final_scores_in_unit_interval
    (scorer : Scorer) (model : Model) (query : string) (notes : list string)
    (note_embeddings : dict Vec) (limit : Z) (vector_threshold : Q)
    (res : list (string * Q)) (t : string) (f : Q) :
  NoDup (keys note_embeddings) ->
  (forall a b, scorer a b <= 100) ->
  vector_threshold < 1 ->
  (forall note embedding s,
     In (note, embedding) note_embeddings ->
     np_dot (model ("query: " ++ query)) embedding = Ok s -> s <= 1) ->
  hybrid_search scorer model query notes note_embeddings limit vector_threshold
    = Ok res ->
  In (t, f) res ->
  0 <= f <= 1.
Proof.
  intros Hnd Hrange Hth Hunit Hres Hin.
  destruct (hybrid_result_get _ _ _ _ _ _ _ _ _ _ Hres Hin)
    as (combined & Hc & Hget).
  pose proof Hc as Hc'. apply hybrid_combined_Ok in Hc' as (vr & Hvr & _).
  rewrite (hybrid_combined_get _ _ _ _ _ _ _ _ t Hnd Hc Hvr) in Hget.
  assert (Hlex : forall ls,
            dict_get (fuzzy_search scorer query notes 20) t = Some ls ->
            1 # 2 <= ls <= 1).
  { intros ls H. apply dict_get_In in H. apply fuzzy_search_In in H.
    apply fuzzy_candidates_spec in H as [H _]. split.
    - now apply pass_scores_ge_half in H.
    - now apply (pass_scores_le_1 scorer query notes Hrange t). }
  assert (Hsem : forall vs,
            dict_get vr t = Some vs -> 0 <= normalize vector_threshold vs <= 1).
  { intros vs H. apply dict_get_In in H.
    apply vector_search_Ok in Hvr as [_ ->].
    apply py_take_In in H. apply sorted_reverse_In in H.
    apply kept_similarities_In in H as (emb & Hemb & Hdot & Hle).
    apply normalize_range; try assumption. eapply Hunit; eassumption. }
  unfold lexical_weight, vector_weight in Hget.
  destruct (dict_get vr t) as [vs|] eqn:Ev;
    destruct (dict_get (fuzzy_search scorer query notes 20) t) as [ls|] eqn:El;
    try discriminate; injection Hget as <-.
  - specialize (Hlex ls eq_refl). specialize (Hsem vs eq_refl).
    set (n := normalize vector_threshold vs) in *. lra.
  - specialize (Hsem vs eq_refl).
    set (n := normalize vector_threshold vs) in *. lra.
  - specialize (Hlex ls eq_refl). lra.
Qed.

Lemma X10_final_scores_in_unit_interval_witness :
  0 <= 30 # 250 <= 1.
Proof.
  apply (X10_final_scores_in_unit_interval indel_ratio example_model
           "plums" example_notes example_embeddings 10 (1 # 2)
           [("plum", 50 # 50); ("peach", 30 # 250)] "peach" (30 # 250)).
  - unfold keys; simpl. repeat constructor; simpl; intuition discriminate.
  - intros a b. apply indel_ratio_range.
  - reflexivity.
  - intros note embedding s [[= <- <-]|[[= <- <-]|[[= <- <-]|[]]]] [= <-];
      discriminate.
  - vm_compute. reflexivity.
  - right. now left.
Defined.

(** ** The snapshot that [main] loads *)

Lemma load_note_embeddings_snoc data k v :
  load_note_embeddings (data ++ [(k, v)]) =
  dict_set (load_note_embeddings data) k v.
Proof. unfold load_note_embeddings. now rewrite fold_left_app. Qed.

Lemma load_note_embeddings_NoDup data : NoDup (keys (load_note_embeddings data)).
Proof.
  induction data as [|[k v] data IH] using rev_ind; [constructor|].
  rewrite load_note_embeddings_snoc. now apply NoDup_keys_dict_set.
Qed.

Lemma load_note_embeddings_keys data t :
  In t (keys (load_note_embeddings data)) <-> In t (map fst data).
Proof.
  induction data as [|[k v] data IH] using rev_ind; [reflexivity|].
  rewrite load_note_embeddings_snoc, In_keys_dict_set, IH, map_app, in_app_iff.
  simpl. intuition congruence.
Qed.

Lemma load_note_embeddings_get data t v :
  dict_get (load_note_embeddings data) t = Some v <->
  exists l1 l2, data = (l1 ++ (t, v) :: l2)%list /\ ~ In t (map fst l2).
Proof.
  revert v. induction data as [|[k x] data IH] using rev_ind; intros v.
  - split; [discriminate|]. intros (l1 & l2 & E & _). now destruct l1.
  - rewrite load_note_embeddings_snoc.
    destruct (String.eqb_spec k t) as [->|Hne].
    + rewrite dict_get_set_same. split.
      * intros [= ->]. exists data, []. split; [reflexivity|]. intros [].
      * intros (l1 & l2 & E & Hnot).
        destruct l2 as [|z l2] using rev_ind.
        -- apply app_inj_tail in E as [_ [= ->]]. reflexivity.
        -- clear IHl2. rewrite app_comm_cons, app_assoc in E.
           apply app_inj_tail in E as [_ <-].
           exfalso. apply Hnot. rewrite map_app, in_app_iff. right. now left.
    + rewrite dict_get_set_other by assumption. rewrite IH. split.
      * intros (l1 & l2 & -> & Hnot). exists l1, (l2 ++ [(k, x)])%list.
        split; [now rewrite <- app_assoc|].
        rewrite map_app, in_app_iff. simpl. intuition congruence.
      * intros (l1 & l2 & E & Hnot).
        destruct l2 as [|z l2] using rev_ind.
        -- apply app_inj_tail in E as [_ [= -> _]]. contradiction.
        -- clear IHl2. rewrite app_comm_cons, app_assoc in E.
           apply app_inj_tail in E as [-> <-].
           exists l1, l2. split; [reflexivity|].
           intros H. apply Hnot. rewrite map_app, in_app_iff. now left.
Qed.

Lemma load_note_embeddings_distinct data :
  NoDup (map fst data) -> load_note_embeddings data = data.
Proof.
  induction data as [|[k v] data IH] using rev_ind; intros Hnd; [reflexivity|].
  rewrite load_note_embeddings_snoc.
  rewrite map_app in Hnd. simpl in Hnd.
  pose proof (NoDup_remove_1 _ _ _ Hnd) as Hnd'. rewrite app_nil_r in Hnd'.
  pose proof (NoDup_remove_2 _ _ _ Hnd) as Hnot. rewrite app_nil_r in Hnot.
  rewrite IH by assumption. clear IH Hnd Hnd'.
  induction data as [|[k' v'] data IH]; simpl; [reflexivity|].
  simpl in Hnot. destruct (String.eqb_spec k' k) as [->|Hne].
  - exfalso. apply Hnot. now left.
  - rewrite IH; [reflexivity|]. intros H. apply Hnot. now right.
Qed.

(** X11. The snapshot [main] builds from the store: the embedding mapping has
    unique keys, which are exactly the stored notes, and the vocabulary is
    the list of those keys; a note stored twice keeps the embedding of its
    last entry; and when the stored notes are distinct the mapping is the
    stored list itself, so the vocabulary is in store order. *)
Theorem X11_loaded_snapshot (embeddings_data : list (string * Vec)) :
  NoDup (load_notes embeddings_data) /\
  (forall t, In t (load_notes embeddings_data) <-> In t (map fst embeddings_data)) /\
  (forall t v,
     dict_get (load_note_embeddings embeddings_data) t = Some v <->
     exists l1 l2,
       embeddings_data = (l1 ++ (t, v) :: l2)%list /\ ~ In t (map fst l2)) /\
  (NoDup (map fst embeddings_data) ->
   load_note_embeddings embeddings_data = embeddings_data /\
   load_notes embeddings_data = map fst embeddings_data).
Proof.
  unfold load_notes. split; [apply load_note_embeddings_NoDup|].
  split; [apply load_note_embeddings_keys|].
  split; [apply load_note_embeddings_get|].
  intros Hnd. now rewrite load_note_embeddings_distinct.
Qed.

(** ** embed.py: the text blob *)

Lemma str_join_cons sep x l :
  l <> [] -> str_join sep (x :: l) = x ++ sep ++ str_join sep l.
Proof. destruct l; [contradiction|reflexivity]. Qed.

Lemma str_join_app sep l1 l2 :
  l1 <> [] -> l2 <> [] ->
  str_join sep (l1 ++ l2) = str_join sep l1 ++ sep ++ str_join sep l2.
Proof.
  intros H1 H2. induction l1 as [|x l1 IH]; [contradiction|].
  destruct l1 as [|y l1].
  - simpl app. now rewrite str_join_cons.
  - rewrite <- app_comm_cons, str_join_cons by discriminate.
    rewrite IH by discriminate.
    rewrite (str_join_cons sep x (y :: l1)) by discriminate.
    now rewrite !append_assoc.
Qed.

Lemma joined_groups_nil groups : joined_groups groups = [] <-> List.concat groups = [].
Proof.
  induction groups as [|g gs IH]; simpl; [tauto|].
  destruct g as [|x g]; simpl; [exact IH|]. split; discriminate.
Qed.

(** Joining the joined groups is joining all the values: no group is empty
    when it is joined, so no separator is doubled. *)
Lemma str_join_joined_groups groups :
  str_join ". " (joined_groups groups) = str_join ". " (List.concat groups).
Proof.
  induction groups as [|g gs IH]; [reflexivity|].
  destruct g as [|x g]; [exact IH|].
  change (joined_groups ((x :: g) :: gs))
    with (str_join ". " (x :: g) :: joined_groups gs).
  change (List.concat ((x :: g) :: gs)) with ((x :: g) ++ List.concat gs)%list.
  destruct (joined_groups gs) as [|p ps] eqn:E.
  - apply joined_groups_nil in E. rewrite E. now rewrite app_nil_r.
  - assert (Hne : List.concat gs <> []).
    { intros H. apply joined_groups_nil in H. congruence. }
    rewrite str_join_cons by discriminate.
    rewrite str_join_app by (assumption || discriminate).
    now rewrite IH.
Qed.

Lemma append_joined_groups field parts :
  append_joined field parts = (parts ++ joined_groups [list_items field])%list.
Proof.
  destruct field as [[|x l]|]; simpl; now rewrite ?app_nil_r.
Qed.

Lemma append_text_groups field parts :
  append_text field parts = (parts ++ joined_groups [text_items field])%list.
Proof.
  destruct field as [s|]; simpl; [|now rewrite app_nil_r].
  destruct (is_empty s); simpl; now rewrite ?app_nil_r.
Qed.

Lemma joined_groups_app gs gs' :
  joined_groups (gs ++ gs') = (joined_groups gs ++ joined_groups gs')%list.
Proof. apply flat_map_app. Qed.

Lemma build_text_blob_flat (coffee : Coffee) :
  build_text_blob coffee = str_join ". " (coffee_items coffee).
Proof.
  unfold build_text_blob.
  rewrite !append_joined_groups, !append_text_groups. cbn [app].
  rewrite <- !joined_groups_app. cbn [app].
  rewrite str_join_joined_groups. unfold coffee_items. cbn [List.concat].
  now rewrite app_nil_r.
Qed.

(** X12. The text blob is the ". "-join of the coffee's values, field by
    field in the order notes, process, protocol, roast level, roasted-for,
    country, region, variety: a missing field, an empty list and an empty
    string add nothing, so the separator is never doubled and the blob of a
    coffee without values is the empty text. *)
Theorem X12_text_blob_joins_all_values (coffee : Coffee) :
  build_text_blob coffee = str_join ". " (coffee_items coffee) /\
  (coffee_items coffee = [] -> build_text_blob coffee = "").
Proof.
  split; [apply build_text_blob_flat|].
  intros H. now rewrite build_text_blob_flat, H.
Qed.

Lemma prefix_append (a b : string) : prefix a (a ++ b) = true.
Proof.
  induction a as [|c a IH]; simpl append; [apply prefix_empty|].
  now rewrite prefix_cons, Ascii.eqb_refl.
Qed.

Lemma str_in_prefix (a b : string) : prefix a b = true -> str_in a b = true.
Proof. intros H. destruct b; cbn [str_in]; now rewrite H. Qed.

Lemma str_in_middle (p a q : string) : str_in a (p ++ a ++ q) = true.
Proof.
  induction p as [|c p IH]; simpl append.
  - apply str_in_prefix, prefix_append.
  - cbn [str_in]. rewrite IH. now destruct (prefix a (String c (p ++ a ++ q))).
Qed.

Lemma str_join_In sep x l :
  In x l -> exists p q, str_join sep l = p ++ x ++ q.
Proof.
  induction l as [|y l IH]; [intros []|].
  intros [->|H].
  - destruct l as [|z l].
    + exists "", "". simpl. now rewrite append_empty_r.
    + exists "", (sep ++ str_join sep (z :: l)). reflexivity.
  - destruct (IH H) as (p & q & E). destruct l as [|z l]; [destruct H|].
    exists (y ++ sep ++ p), q.
    rewrite str_join_cons by discriminate. rewrite E.
    now rewrite !append_assoc.
Qed.

(** X13. Nothing of a coffee is lost on the way to the embedding: every value
    of every field occurs in the text blob as it is written, and when the
    coffee has notes the blob starts with the notes joined by ". ". *)
Theorem X13_text_blob_contains_every_value (coffee : Coffee) :
  (forall x, In x (coffee_items coffee) -> str_in x (build_text_blob coffee) = true)
  /\
  (forall notes,
     coffee_notes coffee = Some notes -> notes <> [] ->
     prefix (str_join ". " notes) (build_text_blob coffee) = true).
Proof.
  rewrite build_text_blob_flat. split.
  - intros x H. destruct (str_join_In ". " x _ H) as (p & q & ->).
    apply str_in_middle.
  - intros notes Hn Hne. unfold coffee_items. rewrite Hn. simpl list_items.
    match goal with |- context [(notes ++ ?r)%list] => set (rest := r) end.
    destruct rest as [|y rest].
    + rewrite app_nil_r. rewrite <- (append_empty_r (str_join ". " notes)) at 2.
      apply prefix_append.
    + rewrite str_join_app by (assumption || discriminate).
      apply prefix_append.
Qed.

(** ** Batches *)

Section Batches.
Context {A : Type}.
Variable items : list A.
Variable batch_size : nat.
Hypothesis batch_size_positive : (0 < batch_size)%nat.

Let slice (i : nat) : list A := py_slice i (i + batch_size) items.

Lemma slice_firstn i : slice i = firstn batch_size (skipn i items).
Proof. unfold slice, py_slice. f_equal. lia. Qed.

Lemma range_from_In fuel i j :
  In j (range_from fuel i (List.length items) batch_size) ->
  (j < List.length items)%nat.
Proof.
  revert i. induction fuel as [|fuel IH]; intros i; simpl; [intros []|].
  destruct (i <? List.length items)%nat eqn:E; [|intros []].
  apply Nat.ltb_lt in E. intros [<-|H]; [assumption|eauto].
Qed.

Lemma range_from_concat fuel i :
  (List.length items - i <= fuel)%nat ->
  List.concat (map slice (range_from fuel i (List.length items) batch_size))
  = skipn i items.
Proof.
  revert i. induction fuel as [|fuel IH]; intros i Hfuel; simpl.
  - symmetry. apply skipn_all2. lia.
  - destruct (i <? List.length items)%nat eqn:E.
    + apply Nat.ltb_lt in E. simpl. rewrite IH by lia.
      rewrite slice_firstn, Nat.add_comm, <- skipn_skipn.
      apply firstn_skipn.
    + apply Nat.ltb_ge in E. symmetry. apply skipn_all2. lia.
Qed.

Lemma range_from_length fuel i :
  (List.length items - i <= fuel)%nat ->
  List.length (range_from fuel i (List.length items) batch_size)
  = ((List.length items - i + batch_size - 1) / batch_size)%nat.
Proof.
  revert i. induction fuel as [|fuel IH]; intros i Hfuel; simpl.
  - replace (List.length items - i)%nat with 0%nat by lia.
    symmetry. apply Nat.div_small. lia.
  - destruct (i <? List.length items)%nat eqn:E.
    + apply Nat.ltb_lt in E. simpl. rewrite IH by lia.
      symmetry.
      set (d := (List.length items - i)%nat).
      destruct (Nat.le_gt_cases batch_size d) as [Hge|Hlt].
      * replace (d + batch_size - 1)%nat
          with ((List.length items - (i + batch_size) + batch_size - 1)
                + 1 * batch_size)%nat by lia.
        rewrite Nat.div_add by lia. lia.
      * replace (List.length items - (i + batch_size))%nat with 0%nat by lia.
        rewrite (Nat.div_small (0 + batch_size - 1)) by lia.
        symmetry. apply Nat.div_unique with (r := (d - 1)%nat); lia.
    + apply Nat.ltb_ge in E.
      replace (List.length items - i)%nat with 0%nat by lia.
      symmetry. apply Nat.div_small. lia.
Qed.

Lemma slice_length j :
  (j < List.length items)%nat ->
  (0 < List.length (slice j) <= batch_size)%nat.
Proof.
  intros H. rewrite slice_firstn, length_firstn, length_skipn. lia.
Qed.

Lemma batches_Ok :
  batches batch_size items =
  Ok (map slice (range_from (List.length items) 0 (List.length items) batch_size)).
Proof.
  unfold batches, py_range. destruct batch_size; [lia|]. reflexivity.
Qed.
End Batches.

Lemma list_sum_concat_length {A : Type} (ls : list (list A)) :
  list_sum (map (@List.length A) ls) = List.length (List.concat ls).
Proof.
  induction ls as [|l ls IH]; simpl; [reflexivity|].
  now rewrite length_app, IH.
Qed.

(** X14. The batches of [main] (embed.py and notes.py) cut the list without
    loss: for a positive batch size the batches, concatenated in order, are
    the list itself; every batch is non-empty and no longer than the batch
    size; there are [ceil(len / size)] of them; and their lengths sum to the
    length of the list, which is the count a dry run reports. *)
Theorem X14_batches_partition_the_items
    {A : Type} (batch_size : nat) (items : list A) :
  (0 < batch_size)%nat ->
  exists bs,
    batches batch_size items = Ok bs /\
    List.concat bs = items /\
    Forall (fun b => (0 < List.length b <= batch_size)%nat) bs /\
    List.length bs = ((List.length items + batch_size - 1) / batch_size)%nat /\
    list_sum (map (@List.length A) bs) = List.length items.
Proof.
  intros Hpos. eexists. split; [now apply batches_Ok|].
  assert (Hconcat :
    List.concat
      (map (fun i => py_slice i (i + batch_size) items)
         (range_from (List.length items) 0 (List.length items) batch_size))
    = items).
  { rewrite range_from_concat by lia. reflexivity. }
  split; [exact Hconcat|]. split; [|split].
  - apply Forall_forall. intros b Hb. apply in_map_iff in Hb as (j & <- & Hj).
    apply slice_length; [assumption|]. now apply range_from_In in Hj.
  - rewrite length_map, range_from_length by lia. f_equal. lia.
  - now rewrite list_sum_concat_length, Hconcat.
Qed.

(** With the batch sizes of the two scripts the loop never fails. *)
Example main_batches_never_fail {A : Type} (items : list A) :
  (exists bs, batches EMBED_BATCH_SIZE items = Ok bs) /\
  (exists bs, batches NOTES_BATCH_SIZE items = Ok bs).
Proof.
  split; eexists; apply batches_Ok; unfold EMBED_BATCH_SIZE, NOTES_BATCH_SIZE; lia.
Qed.

Lemma X14_batches_partition_the_items_witness :
  exists bs,
    batches 3 (["a"; "b"; "c"; "d"; "e"; "f"; "g"]) = Ok bs /\
    List.concat bs = ["a"; "b"; "c"; "d"; "e"; "f"; "g"] /\
    Forall (fun b => (0 < List.length b <= 3)%nat) bs /\
    List.length bs = ((7 + 3 - 1) / 3)%nat /\
    list_sum (map (@List.length string) bs) = 7%nat.
Proof.
  apply (X14_batches_partition_the_items 3
           ["a"; "b"; "c"; "d"; "e"; "f"; "g"]).
  lia.
Defined.

(** ** notes.py: the distinct notes *)

Lemma str_lt_trans a b c : str_lt a b -> str_lt b c -> str_lt a c.
Proof.
  unfold str_lt, String.ltb. intros H1 H2.
  destruct (String.compare a b) eqn:E1; try discriminate.
  destruct (String.compare b c) eqn:E2; try discriminate.
  apply String_as_OT.cmp_lt in E1, E2.
  pose proof (String_as_OT.lt_trans _ _ _ E1 E2) as H.
  apply String_as_OT.cmp_lt in H. unfold String_as_OT.cmp in H. now rewrite H.
Qed.

Lemma str_lt_irrefl a : ~ str_lt a a.
Proof.
  unfold str_lt, String.ltb. intros H.
  destruct (String.compare a a) eqn:E; try discriminate.
  pose proof (String.compare_antisym a a) as Ha. rewrite E in Ha. discriminate.
Qed.

Lemma str_lt_total a b : a <> b -> String.ltb a b = false -> str_lt b a.
Proof.
  unfold str_lt, String.ltb. intros Hne H.
  rewrite String.compare_antisym.
  destruct (String.compare a b) eqn:E; try discriminate; [|reflexivity].
  apply String.compare_eq_iff in E. contradiction.
Qed.

Lemma set_add_In s x y : In y (set_add s x) <-> y = x \/ In y s.
Proof.
  unfold set_add. destruct (existsb (String.eqb x) s) eqn:E.
  - apply existsb_exists in E as (z & Hz & Heq). apply String.eqb_eq in Heq.
    subst z. intuition congruence.
  - rewrite in_app_iff. simpl. intuition congruence.
Qed.

Lemma set_add_NoDup s x : NoDup s -> NoDup (set_add s x).
Proof.
  intros Hnd. unfold set_add. destruct (existsb (String.eqb x) s) eqn:E;
    [assumption|].
  apply NoDup_rev in Hnd. rewrite <- (rev_involutive (s ++ [x])%list).
  apply NoDup_rev. rewrite rev_app_distr. simpl. constructor; [|assumption].
  rewrite <- in_rev. intros Hin.
  assert (existsb (String.eqb x) s = true); [|congruence].
  apply existsb_exists. exists x. split; [assumption|apply String.eqb_refl].
Qed.

Lemma collect_notes_spec coffees :
  NoDup (collect_notes coffees) /\
  forall x, In x (collect_notes coffees) <-> lowered_note coffees x.
Proof.
  unfold collect_notes, lowered_note.
  induction coffees as [|c coffees IH] using rev_ind.
  - split; [constructor|]. intros x. split; [intros []|].
    intros (c & n & [] & _).
  - rewrite fold_left_app. simpl.
    set (s := fold_left _ coffees []) in *. destruct IH as [Hnd Hin].
    assert (Hinner : forall notes (s0 : list string),
      NoDup s0 ->
      NoDup (fold_left (fun a note => set_add a (lower note)) notes s0) /\
      forall x, In x (fold_left (fun a note => set_add a (lower note)) notes s0)
                <-> In x s0 \/ exists note, In note notes /\ x = lower note).
    { clear. induction notes as [|n notes IH]; intros s0 Hnd; simpl.
      - split; [assumption|]. intros x. split; [auto|].
        intros [H|(n & [] & _)]. assumption.
      - destruct (IH (set_add s0 (lower n)) (set_add_NoDup _ _ Hnd)) as [H1 H2].
        split; [assumption|]. intros x. rewrite H2, set_add_In. split.
        + intros [[->|H]|(m & Hm & ->)]; eauto.
        + intros [H|(m & [<-|Hm] & ->)]; eauto. }
    destruct (Hinner (list_items (coffee_notes c)) s Hnd) as [H1 H2].
    split; [assumption|]. intros x. rewrite H2, Hin. split.
    + intros [(c' & n & Hc & Hn & ->)|(n & Hn & ->)].
      * exists c', n. rewrite in_app_iff. auto.
      * exists c, n. rewrite in_app_iff. simpl. auto.
    + intros (c' & n & Hc & Hn & ->). apply in_app_iff in Hc as [Hc|[<-|[]]].
      * left. eauto.
      * right. eauto.
Qed.

Lemma insert_asc_In x y l : In y (insert_asc x l) <-> y = x \/ In y l.
Proof.
  induction l as [|z l IH]; simpl; [intuition congruence|].
  destruct (String.ltb z x); simpl; [rewrite IH|]; intuition congruence.
Qed.

Lemma sorted_strings_In y l : In y (sorted_strings l) <-> In y l.
Proof.
  induction l as [|x l IH]; simpl; [tauto|].
  rewrite insert_asc_In, IH. intuition congruence.
Qed.

Lemma insert_asc_sorted x l :
  StronglySorted str_lt l -> ~ In x l -> StronglySorted str_lt (insert_asc x l).
Proof.
  induction l as [|y l IH]; simpl; intros Hs Hnot.
  - constructor; constructor.
  - inversion Hs as [|? ? Hs' Hall]; subst.
    destruct (String.ltb y x) eqn:E.
    + constructor; [apply IH; tauto|].
      apply Forall_forall. intros z Hz. apply insert_asc_In in Hz as [->|Hz];
        [exact E|]. rewrite Forall_forall in Hall. auto.
    + assert (Hxy : str_lt x y) by (apply str_lt_total; [intuition congruence|assumption]).
      constructor; [assumption|]. constructor; [assumption|].
      eapply Forall_impl; [|exact Hall]. intros z Hz.
      now apply str_lt_trans with y.
Qed.

Lemma sorted_strings_sorted l :
  NoDup l -> StronglySorted str_lt (sorted_strings l).
Proof.
  induction l as [|x l IH]; simpl; intros Hnd; [constructor|].
  inversion Hnd as [|? ? Hnot Hnd']; subst.
  apply insert_asc_sorted; [auto|]. now rewrite sorted_strings_In.
Qed.

(** Two strictly ascending lists with the same elements are equal. *)
Lemma strictly_sorted_unique l l' :
  StronglySorted str_lt l -> StronglySorted str_lt l' ->
  (forall x, In x l <-> In x l') -> l = l'.
Proof.
  revert l'. induction l as [|a l IH]; intros l' Hs Hs' Hsame.
  - destruct l' as [|b l']; [reflexivity|].
    exfalso. apply (Hsame b). now left.
  - destruct l' as [|b l'].
    { exfalso. apply (Hsame a). now left. }
    inversion Hs as [|? ? Hsl Hal]; subst.
    inversion Hs' as [|? ? Hsl' Hal']; subst.
    rewrite Forall_forall in Hal, Hal'.
    assert (a = b).
    { destruct (proj1 (Hsame a) (or_introl eq_refl)) as [->|Ha]; [reflexivity|].
      destruct (proj2 (Hsame b) (or_introl eq_refl)) as [->|Hb]; [reflexivity|].
      exfalso. apply (str_lt_irrefl a).
      apply str_lt_trans with b; auto. }
    subst b. f_equal. apply IH; try assumption.
    intros x. split; intros Hx.
    + destruct (proj1 (Hsame x) (or_intror Hx)) as [<-|H]; [|assumption].
      exfalso. apply (str_lt_irrefl a). auto.
    + destruct (proj2 (Hsame x) (or_intror Hx)) as [<-|H]; [|assumption].
      exfalso. apply (str_lt_irrefl a). auto.
Qed.

Lemma lower_ascii_idempotent c : lower_ascii (lower_ascii c) = lower_ascii c.
Proof. destruct c as [[] [] [] [] [] [] [] []]; reflexivity. Qed.

Lemma lower_idempotent s : lower (lower s) = lower s.
Proof.
  induction s as [|c s IH]; simpl; [reflexivity|].
  now rewrite lower_ascii_idempotent, IH.
Qed.

(** X15. The notes that [--all] embeds: the list is strictly ascending, so it
    holds no note twice; it holds exactly the lowercased notes of the
    coffees; and each of its entries is already lowercase. *)
Theorem X15_distinct_notes_are_sorted_and_lowercase (coffees : list Coffee) :
  StronglySorted str_lt (distinct_notes coffees) /\
  NoDup (distinct_notes coffees) /\
  (forall x, In x (distinct_notes coffees) <-> lowered_note coffees x) /\
  (forall x, In x (distinct_notes coffees) -> lower x = x).
Proof.
  unfold distinct_notes. destruct (collect_notes_spec coffees) as [Hnd Hin].
  assert (Hs : StronglySorted str_lt (sorted_strings (collect_notes coffees)))
    by now apply sorted_strings_sorted.
  split; [assumption|]. split; [|split].
  - clear Hin Hnd. induction Hs as [|a l Hs IH Hall]; constructor; [|assumption].
    intros Ha. rewrite Forall_forall in Hall.
    exact (str_lt_irrefl a (Hall a Ha)).
  - intros x. now rewrite sorted_strings_In.
  - intros x Hx. apply sorted_strings_In, Hin in Hx as (c & n & _ & _ & ->).
    apply lower_idempotent.
Qed.

(** X16. The distinct notes depend on the coffees only through the set of
    their lowercased notes: the order of the coffees, the order of the notes
    within a coffee, repetitions and case do not change the list. *)
Theorem X16_distinct_notes_depend_on_the_set_only (coffees coffees' : list Coffee) :
  (forall x, lowered_note coffees x <-> lowered_note coffees' x) ->
  distinct_notes coffees = distinct_notes coffees'.
Proof.
  intros Hsame.
  destruct (collect_notes_spec coffees) as [Hnd Hin].
  destruct (collect_notes_spec coffees') as [Hnd' Hin'].
  apply strictly_sorted_unique.
  - now apply sorted_strings_sorted.
  - now apply sorted_strings_sorted.
  - intros x. unfold distinct_notes.
    now rewrite !sorted_strings_In, Hin, Hin', Hsame.
Qed.

Lemma X16_distinct_notes_depend_on_the_set_only_witness :
  distinct_notes [example_coffee] = distinct_notes [example_coffee; example_coffee].
Proof.
  apply X16_distinct_notes_depend_on_the_set_only.
  intros x. unfold lowered_note. split.
  - intros (c & n & [<-|[]] & Hn & ->). exists example_coffee, n.
    split; [now left|]. now split.
  - intros (c & n & [<-|[<-|[]]] & Hn & ->); exists example_coffee, n;
      (split; [now left|]); now split.
Defined.

(** ** vocabulary.py: building the entries *)

Section BuildEntries.
Variable json_loads : Decoder.
Variable client : Client.
Variable model : Model.

(** [get_llm_mappings] raises what the client raises, or what the parsing
    raises and the [except] clause does not list. *)
Lemma get_llm_mappings_Raise term e :
  get_llm_mappings json_loads client term = Raise e ->
  client (user_message term) = Raise e \/
  exists content,
    client (user_message term) = Ok content /\
    parse_response json_loads content = Raise e /\
    parse_failure e = false.
Proof.
  intros H. destruct (client (user_message term)) as [content|e'] eqn:E.
  - right. exists content. split; [reflexivity|].
    rewrite (get_llm_mappings_answered _ _ _ _ E) in H.
    destruct (parse_response json_loads content) as [v|e'']; [discriminate|].
    destruct (parse_failure e'') eqn:Ef; [discriminate|].
    injection H as <-. now split.
  - left. rewrite (get_llm_mappings_client_raises _ _ _ _ E) in H.
    now injection H as <-.
Qed.

Lemma mapped_None field value :
  mapped field value = None -> is_object value = false.
Proof. now destruct value. Qed.

Lemma build_entry_answered term content :
  client (user_message term) = Ok content ->
  (forall v, parse_response json_loads content = Ok v -> is_object v = true) ->
  (forall e, parse_response json_loads content = Raise e ->
             parse_failure e = true) ->
  exists entry,
    build_entry json_loads client model term = Built entry /\
    entry_term entry = term /\
    entry_embedding entry = model ("query: " ++ term) /\
    (forall err,
       parse_response json_loads content = Raise err ->
       entry_mappedNotes entry = JArray [] /\
       entry_mappedProcesses entry = JArray []).
Proof.
  intros Hc Hobj Hexn. unfold build_entry.
  rewrite (get_llm_mappings_answered _ _ _ _ Hc).
  destruct (parse_response json_loads content) as [v|e] eqn:E.
  - specialize (Hobj v eq_refl).
    destruct v as [| | | | |members]; try discriminate. simpl.
    eexists. split; [reflexivity|]. split; [reflexivity|].
    split; [reflexivity|]. intros err H. discriminate.
  - rewrite (Hexn e eq_refl). simpl.
    eexists. split; [reflexivity|]. split; [reflexivity|].
    split; [reflexivity|]. intros err _. split; reflexivity.
Qed.

Lemma build_entry_Aborted term why :
  build_entry json_loads client model term = Aborted why ->
  match why with
  | Uncaught e =>
      client (user_message term) = Raise e \/
      exists content,
        client (user_message term) = Ok content /\
        parse_response json_loads content = Raise e /\
        parse_failure e = false
  | AttributeError =>
      exists content v,
        client (user_message term) = Ok content /\
        parse_response json_loads content = Ok v /\
        is_object v = false
  end.
Proof.
  unfold build_entry.
  destruct (get_llm_mappings json_loads client term) as [mappings|e] eqn:E.
  - destruct (client (user_message term)) as [content|e'] eqn:Hc.
    2:{ rewrite (get_llm_mappings_client_raises _ _ _ _ Hc) in E.
        discriminate. }
    rewrite (get_llm_mappings_answered _ _ _ _ Hc) in E.
    destruct (parse_response json_loads content) as [v|e'] eqn:Ep.
    + injection E as <-. destruct (mapped "mappedNotes" v) eqn:E1.
      * destruct (mapped "mappedProcesses" v) eqn:E2; [discriminate|].
        intros [= <-]. exists content, v.
        split; [reflexivity|]. split; [assumption|].
        now apply mapped_None in E2.
      * intros [= <-]. exists content, v.
        split; [reflexivity|]. split; [assumption|].
        now apply mapped_None in E1.
    + destruct (parse_failure e'); [|discriminate].
      injection E as <-. simpl. discriminate.
  - intros [= <-]. now apply get_llm_mappings_Raise.
Qed.

Lemma build_entry_client_raises term e :
  client (user_message term) = Raise e ->
  build_entry json_loads client model term = Aborted (Uncaught e).
Proof.
  intros H. unfold build_entry.
  now rewrite (get_llm_mappings_client_raises _ _ _ _ H).
Qed.

Lemma build_entry_parse_raises term content e :
  client (user_message term) = Ok content ->
  parse_response json_loads content = Raise e ->
  parse_failure e = false ->
  build_entry json_loads client model term = Aborted (Uncaught e).
Proof.
  intros Hc Hp He. unfold build_entry.
  now rewrite (get_llm_mappings_answered _ _ _ _ Hc), Hp, He.
Qed.

Lemma build_entry_not_an_object term content v :
  client (user_message term) = Ok content ->
  parse_response json_loads content = Ok v ->
  is_object v = false ->
  build_entry json_loads client model term = Aborted AttributeError.
Proof.
  intros Hc Hp Hv. unfold build_entry.
  rewrite (get_llm_mappings_answered _ _ _ _ Hc), Hp.
  now destruct v.
Qed.

(** A term that aborts its own entry aborts the loop. *)
Lemma build_entries_Aborted_in term terms why :
  In term terms ->
  build_entry json_loads client model term = Aborted why ->
  exists why', build_entries json_loads client model terms = Aborted why'.
Proof.
  induction terms as [|t terms IH]; intros Hin Hb; simpl.
  - destruct Hin.
  - destruct Hin as [->|Hin].
    + rewrite Hb. eauto.
    + destruct (build_entry json_loads client model t); [|eauto].
      destruct (IH Hin Hb) as [why' ->]. eauto.
Qed.
End BuildEntries.

(** X17. An answer that fails to parse with an exception of the [except]
    clause does not abort the batch: when the client answers for every term,
    every answer that decodes is a JSON object, and every exception the
    parsing of an answer raises is one the clause lists ([JSONDecodeError],
    [IndexError]), [main] builds one entry per term, in the order of the
    terms, each with the embedding of "query: " followed by the term; and the
    entry of a term whose answer failed to parse carries empty notes and
    processes. *)
Theorem X17_parse_failures_do_not_abort_the_batch
    (json_loads : Decoder) (client : Client) (model : Model)
    (terms : list string) :
  (forall term,
     In term terms ->
     exists content,
       client (user_message term) = Ok content /\
       (forall v, parse_response json_loads content = Ok v ->
                  is_object v = true) /\
       (forall e, parse_response json_loads content = Raise e ->
                  parse_failure e = true)) ->
  exists entries,
    build_entries json_loads client model terms = Built entries /\
    map entry_term entries = terms /\
    Forall (fun entry =>
              entry_embedding entry = model ("query: " ++ entry_term entry))
      entries /\
    (forall entry content err,
       In entry entries ->
       client (user_message (entry_term entry)) = Ok content ->
       parse_response json_loads content = Raise err ->
       entry_mappedNotes entry = JArray [] /\
       entry_mappedProcesses entry = JArray []).
Proof.
  induction terms as [|term terms IH]; intros Hall.
  - exists []. split; [reflexivity|]. split; [reflexivity|].
    split; [constructor|]. intros ? ? ? [].
  - destruct (Hall term (or_introl eq_refl)) as (content & Hc & Hobj & Hexn).
    destruct (build_entry_answered json_loads client model term content
                Hc Hobj Hexn) as (entry & Hb & Ht & He & Hfail).
    destruct IH as (entries & Hbs & Hts & Hes & Hfails).
    { intros t Ht'. apply Hall. now right. }
    exists (entry :: entries). simpl. rewrite Hb, Hbs.
    split; [reflexivity|]. split; [now rewrite Ht, Hts|]. split.
    + constructor; [now rewrite Ht|assumption].
    + intros en content' err [<-|Hin] Hc' Hp.
      * rewrite Ht in Hc'. rewrite Hc in Hc'. injection Hc' as <-. eauto.
      * eauto.
Qed.

Lemma X17_parse_failures_do_not_abort_the_batch_witness :
  exists entries,
    build_entries json_loads_lite
      (example_client "Sure! Here are the notes you asked for.") example_model
      ["funky"; "jammy"] = Built entries /\
    map entry_term entries = ["funky"; "jammy"] /\
    map entry_mappedNotes entries = [JArray []; JArray []].
Proof.
  destruct (X17_parse_failures_do_not_abort_the_batch json_loads_lite
              (example_client "Sure! Here are the notes you asked for.")
              example_model ["funky"; "jammy"]) as (entries & H1 & H2 & _).
  - intros term _. eexists. split; [reflexivity|].
    split; intros v H; vm_compute in H; [discriminate|].
    now injection H as <-.
  - exists entries. split; [assumption|]. split; [assumption|].
    vm_compute in H1. injection H1 as <-. reflexivity.
Defined.

(** X18. What aborts the batch: [main] stops without entries exactly on
    three kinds of term: a failure of the client, which is not caught; an
    answer on which the parsing raises an exception that the [except] clause
    does not list (the decoder's [RecursionError] on deeply nested brackets,
    its [ValueError] on an integer of more than 4300 digits); or an answer
    that decodes to a JSON value that is no object, on which [mappings.get]
    raises [AttributeError]. Each of the three, on any term, aborts the
    batch. *)
Theorem X18_what_aborts_the_batch
    (json_loads : Decoder) (client : Client) (model : Model)
    (terms : list string) :
  (forall why,
     build_entries json_loads client model terms = Aborted why ->
     exists term,
       In term terms /\
       match why with
       | Uncaught e =>
           client (user_message term) = Raise e \/
           exists content,
             client (user_message term) = Ok content /\
             parse_response json_loads content = Raise e /\
             parse_failure e = false
       | AttributeError =>
           exists content v,
             client (user_message term) = Ok content /\
             parse_response json_loads content = Ok v /\
             is_object v = false
       end) /\
  (forall term e,
     In term terms -> client (user_message term) = Raise e ->
     exists why, build_entries json_loads client model terms = Aborted why) /\
  (forall term content e,
     In term terms -> client (user_message term) = Ok content ->
     parse_response json_loads content = Raise e ->
     parse_failure e = false ->
     exists why, build_entries json_loads client model terms = Aborted why) /\
  (forall term content v,
     In term terms -> client (user_message term) = Ok content ->
     parse_response json_loads content = Ok v ->
     is_object v = false ->
     exists why, build_entries json_loads client model terms = Aborted why).
Proof.
  split; [|split; [|split]].
  - induction terms as [|term terms IH]; intros why; simpl; [discriminate|].
    destruct (build_entry json_loads client model term) as [entry|why'] eqn:E.
    + destruct (build_entries json_loads client model terms) as [entries|why'']
        eqn:Es; [discriminate|].
      intros [= <-]. destruct (IH why'' eq_refl) as (t & Ht & H).
      exists t. split; [now right|assumption].
    + intros [= <-]. exists term. split; [now left|].
      now apply build_entry_Aborted in E.
  - intros term e Hin Hc.
    apply (build_entries_Aborted_in _ _ _ term terms (Uncaught e) Hin).
    now apply build_entry_client_raises.
  - intros term content e Hin Hc Hp He.
    apply (build_entries_Aborted_in _ _ _ term terms (Uncaught e) Hin).
    now apply (build_entry_parse_raises _ _ _ term content).
  - intros term content v Hin Hc Hp Hv.
    apply (build_entries_Aborted_in _ _ _ term terms AttributeError Hin).
    now apply (build_entry_not_an_object _ _ _ term content v).
Qed.

Example build_entries_not_an_object :
  build_entries json_loads_lite (example_client "[1, 2]") example_model
    ["funky"; "jammy"] = Aborted AttributeError.
Proof. vm_compute. reflexivity. Qed.

Example build_entries_deep_answer :
  build_entries json_loads_lite (example_client deep_answer) example_model
    ["funky"; "jammy"] = Aborted (Uncaught RecursionError).
Proof. vm_compute. reflexivity. Qed.

Example build_entries_long_integer :
  build_entries json_loads_lite (example_client long_integer_answer)
    example_model ["funky"; "jammy"] = Aborted (Uncaught ValueError).
Proof. vm_compute. reflexivity. Qed.

(** ** vocabulary.py: what get_llm_mappings does recover *)

(** X19. Fenced answers and the failures the [except] clause lists: once the
    client has answered, an exception of the parsing that is a
    [JSONDecodeError] or an [IndexError] is answered by the empty mappings,
    and so is an answer without a content block; and an answer whose first
    content block is a fenced code block, with or without the "json" tag,
    with optional whitespace in front and any text behind, is decoded from
    the text between the fences: the decoded value is returned, a
    [JSONDecodeError] gives the empty mappings, and any other exception of
    the decoder is raised. *)
Theorem X19_fenced_answers_and_listed_failures
    (json_loads : Decoder) (client : Client) (term : string)
    (content : list string) :
  client (user_message term) = Ok content ->
  (forall e,
     parse_response json_loads content = Raise e ->
     parse_failure e = true ->
     get_llm_mappings json_loads client term = Ok empty_mappings) /\
  (content = [] ->
     get_llm_mappings json_loads client term = Ok empty_mappings) /\
  (forall w1 body tail more,
     str_forall is_space w1 = true ->
     str_forall not_backtick body = true ->
     content = (w1 ++ (fence ++ ("json" ++ body) ++ fence) ++ tail) :: more ->
     get_llm_mappings json_loads client term =
     match json_loads body with
     | Ok value => Ok value
     | Raise e => if parse_failure e then Ok empty_mappings else Raise e
     end) /\
  (forall w1 body tail more,
     str_forall is_space w1 = true ->
     str_forall not_backtick body = true ->
     startswith body "json" = false ->
     content = (w1 ++ (fence ++ body ++ fence) ++ tail) :: more ->
     get_llm_mappings json_loads client term =
     match json_loads body with
     | Ok value => Ok value
     | Raise e => if parse_failure e then Ok empty_mappings else Raise e
     end).
Proof.
  intros Hclient. rewrite (get_llm_mappings_answered _ _ _ _ Hclient).
  split; [intros e -> ->; reflexivity|].
  split; [intros ->; reflexivity|]. split.
  - intros w1 body tail more H1 Hb ->.
    rewrite parse_response_fenced by assumption.
    rewrite startswith_json. reflexivity.
  - intros w1 body tail more H1 Hb Hj ->.
    rewrite parse_response_fenced by assumption. rewrite Hj. reflexivity.
Qed.

(** A fenced answer with the tag is decoded from the text between the
    fences. *)
Lemma X19_fenced_answers_and_listed_failures_witness :
  example_client fenced_answer (user_message "berry bomb") = Ok [fenced_answer] /\
  get_llm_mappings json_loads_lite (example_client fenced_answer) "berry bomb" =
  Ok (JObject [("mappedNotes", JArray [JString "berry"; JString "jammy"]);
               ("mappedProcesses", JArray [JString "natural"])]).
Proof.
  split; [reflexivity|].
  destruct (X19_fenced_answers_and_listed_failures json_loads_lite
              (example_client fenced_answer) "berry bomb" [fenced_answer]
              eq_refl) as (_ & _ & H & _).
  change [fenced_answer] with [("" ++ fenced_answer ++ "")%string] in H.
  rewrite (H "" fenced_body "" [] eq_refl eq_refl eq_refl).
  vm_compute. reflexivity.
Defined.
